(** * SecurityBoat storefront: the catalog core of [src/App.js]

    The development embeds the parts of [App.js] that carry logic:
    - the JavaScript number and string primitives the code relies on
      ([Number], [||], [%], [Math.floor], [toLowerCase], [includes],
      [Array.prototype.sort]);
    - [augment] (list view) and the inline re-derivation of [ProductDetails];
    - the [filtered] pipeline of [ProductList], once as a function on lists
      and once over a store of arrays, where [slice], [filter] and [sort]
      allocate or mutate as they do in JavaScript;
    - [load], [PrivateRoute] and the token helpers, over an explicit
      browser state. *)

From Stdlib Require Import ZArith Lia List Bool Ascii String Sorted Permutation.
From Stdlib Require Import SpecFloat.
From stdpp Require Import gmap.
Import ListNotations.

Local Open Scope Z_scope.

(** ** JavaScript numbers

    A JavaScript number is an IEEE-754 binary64 value.  Every finite binary64
    value is an integer multiple of [2^-1074], the smallest subnormal, so a
    finite number is stored as that integer: [Fin k] stands for
    [k * 2^-1074].  The two zeros are identified; none of the operations
    used by [App.js] tells them apart ([0 || x], [x % 5] as an array index
    and [-0 + 500] behave alike for both).  Addition and multiplication
    round the exact result to the nearest double, ties to even; further
    down they are compared, on doubles of all kinds, with the Standard
    Library's specification of IEEE-754 arithmetic. *)
Module JS.

Inductive num : Type :=
| NaN
| Inf (neg : bool)
| Fin (k : Z).

(** The integer that stands for the number 1. *)
Definition one : Z := 2 ^ 1074.

(** Number of binary digits of a non-negative integer. *)
Definition bits (a : Z) : Z := if a =? 0 then 0 else Z.log2 a + 1.

(** [a / 2^sh] rounded to the nearest integer, ties to even: the quotient
    [q] is [a] shifted right, the remainder [r] the bits shifted out, and
    [h] one half. *)
Definition rne (a sh : Z) : Z :=
  if sh <=? 0 then a
  else
    let q := Z.shiftr a sh in
    let r := Z.land a (Z.ones sh) in
    let h := Z.shiftl 1 (sh - 1) in
    if r <? h then q
    else if h <? r then q + 1
    else if Z.even q then q else q + 1.

(** [round x n]: the binary64 value nearest to [n * 2^-(1074+x)]
    (round to nearest, ties to even): at most 53 significant bits are kept,
    nothing below [2^-1074] is kept, and a result of magnitude [2^1024]
    or more overflows to an infinity. *)
Definition round (x n : Z) : num :=
  let a := Z.abs n in
  let sh := Z.max (bits a - 53) x in
  let k := Z.shiftl (rne a sh) (sh - x) in
  if 2 ^ 2098 <=? k then Inf (n <? 0) else Fin (Z.sgn n * k).

(** An integer literal of the source, such as [97] or [149500]. *)
Definition lit (z : Z) : num := round 0 (z * one).

(** [k] is the integer of a binary64 value. *)
Definition is_double (k : Z) : Prop := round 0 k = Fin k.

Definition mul (a b : num) : num :=
  match a, b with
  | NaN, _ | _, NaN => NaN
  | Inf s, Inf t => Inf (xorb s t)
  | Inf s, Fin k | Fin k, Inf s => if k =? 0 then NaN else Inf (xorb s (k <? 0))
  | Fin j, Fin k => round 1074 (j * k)
  end.

Definition add (a b : num) : num :=
  match a, b with
  | NaN, _ | _, NaN => NaN
  | Inf s, Inf t => if Bool.eqb s t then Inf s else NaN
  | Inf s, Fin _ | Fin _, Inf s => Inf s
  | Fin j, Fin k => round 0 (j + k)
  end.

Definition opp (a : num) : num :=
  match a with
  | NaN => NaN
  | Inf s => Inf (negb s)
  | Fin k => Fin (- k)
  end.

Definition sub (a b : num) : num := add a (opp b).

(** The remainder operator [%]: the result takes the sign of the dividend
    ([Z.rem] truncates towards zero) and is always exact. *)
Definition rem (a b : num) : num :=
  match a, b with
  | NaN, _ | _, NaN => NaN
  | Inf _, _ => NaN
  | Fin j, Inf _ => Fin j
  | Fin j, Fin k => if k =? 0 then NaN else Fin (Z.rem j k)
  end.

(** [Math.floor]. *)
Definition floor (a : num) : num :=
  match a with
  | Fin k => Fin (k / one * one)
  | _ => a
  end.

(** [a <= b]; false as soon as one side is [NaN]. *)
Definition le (a b : num) : bool :=
  match a, b with
  | NaN, _ | _, NaN => false
  | Inf s, Inf t => implb t s
  | Inf s, Fin _ => s
  | Fin _, Inf t => negb t
  | Fin j, Fin k => j <=? k
  end.

(** [a >= b]. *)
Definition ge (a b : num) : bool := le b a.

(** [ToBoolean] on a number: [NaN] and zero are falsy. *)
Definition truthy (a : num) : bool :=
  match a with
  | NaN => false
  | Inf _ => true
  | Fin k => negb (k =? 0)
  end.

(** [a || b] on numbers; [b] is passed evaluated, callers for which the
    evaluation of [b] has an effect branch on [truthy] themselves. *)
Definition or_else (a b : num) : num := if truthy a then a else b.

(** The array index a number denotes when it is used as a property key of
    an array: a non-negative integer, nothing otherwise. *)
Definition index (a : num) : option nat :=
  match a with
  | Fin k => if (0 <=? k) && (k mod one =? 0) then Some (Z.to_nat (k / one)) else None
  | _ => None
  end.

(** The integer value of a number, when it has one. *)
Definition to_Z (a : num) : option Z :=
  match a with
  | Fin k => if k mod one =? 0 then Some (k / one) else None
  | _ => None
  end.

End JS.

(** ** JavaScript strings

    A string is a sequence of code units; the model carries the code units
    below 256 (Latin-1 text), one per [ascii]. *)
Module Str.

Definition code (c : ascii) : Z := Z.of_N (N_of_ascii c).

Definition of_code (n : Z) : ascii := ascii_of_N (Z.to_N n).

(** [toLowerCase] of one code unit: [A-Z], and the Latin-1 capitals
    [U+00C0..U+00DE] without the multiplication sign [U+00D7]. *)
Definition lower_char (c : ascii) : ascii :=
  let n := code c in
  if ((65 <=? n) && (n <=? 90))
     || ((192 <=? n) && (n <=? 222) && negb (n =? 215))
  then of_code (n + 32) else c.

Fixpoint toLowerCase (s : string) : string :=
  match s with
  | EmptyString => EmptyString
  | String c r => String (lower_char c) (toLowerCase r)
  end.

(** [hay.includes(needle)]: [needle] occurs in [hay] as a substring. *)
Fixpoint includes (hay needle : string) : bool :=
  String.prefix needle hay
  || match hay with
     | EmptyString => false
     | String _ r => includes r needle
     end.

(** [ToBoolean] on a string: only the empty string is falsy. *)
Definition truthy (s : string) : bool :=
  match s with
  | EmptyString => false
  | String _ _ => true
  end.

(** *** [StringToNumber]

    The [StringNumericLiteral] grammar: optional white space around a signed
    decimal literal (with optional fraction and exponent), [Infinity], or an
    unsigned binary, octal or hexadecimal integer literal; white space alone
    is 0; anything else is [NaN]. *)
Definition is_ws (c : ascii) : bool :=
  let n := code c in
  ((9 <=? n) && (n <=? 13)) || (n =? 32) || (n =? 160).

Fixpoint drop_ws (s : list ascii) : list ascii :=
  match s with
  | c :: r => if is_ws c then drop_ws r else s
  | [] => []
  end.

Definition trim (s : list ascii) : list ascii :=
  rev (drop_ws (rev (drop_ws s))).

Definition digit_val (base : Z) (c : ascii) : option Z :=
  let n := code c in
  let v :=
    if (48 <=? n) && (n <=? 57) then n - 48
    else if (97 <=? n) && (n <=? 102) then n - 87
    else if (65 <=? n) && (n <=? 70) then n - 55
    else base in
  if v <? base then Some v else None.

(** Reads the longest run of digits: the value accumulated onto [acc], the
    number of digits read, and the rest of the input. *)
Fixpoint read_digits (base acc cnt : Z) (s : list ascii) : Z * Z * list ascii :=
  match s with
  | c :: r =>
      match digit_val base c with
      | Some v => read_digits base (acc * base + v) (cnt + 1) r
      | None => (acc, cnt, s)
      end
  | [] => (acc, cnt, [])
  end.

Definition read_sign (s : list ascii) : bool * list ascii :=
  match s with
  | c :: r =>
      if code c =? 43 then (false, r)
      else if code c =? 45 then (true, r)
      else (false, s)
  | [] => (false, [])
  end.

(** The exponent part, which must end the literal. *)
Definition read_exp (s : list ascii) : option Z :=
  match s with
  | [] => Some 0
  | c :: r =>
      if (code c =? 101) || (code c =? 69) then
        let (neg, r1) := read_sign r in
        let '(v, n, rest) := read_digits 10 0 0 r1 in
        match rest with
        | [] => if 0 <? n then Some (if neg then - v else v) else None
        | _ => None
        end
      else None
  end.

(** An unsigned decimal literal as [(m, e)], standing for [m * 10^e]. *)
Definition read_decimal (s : list ascii) : option (Z * Z) :=
  let '(i, ni, r1) := read_digits 10 0 0 s in
  match r1 with
  | c :: r2 =>
      if code c =? 46 then
        let '(m, nf, r3) := read_digits 10 i 0 r2 in
        if 0 <? ni + nf then
          match read_exp r3 with
          | Some e => Some (m, e - nf)
          | None => None
          end
        else None
      else if 0 <? ni then
        match read_exp r1 with
        | Some e => Some (i, e)
        | None => None
        end
      else None
  | [] => if 0 <? ni then Some (i, 0) else None
  end.

(** The binary64 value nearest to [m * 10^e], [m >= 0].  For a negative [e]
    the quotient is taken with 64 extra bits and a sticky bit, which is
    enough for [round] to round the exact quotient. *)
Definition of_decimal (m e : Z) : JS.num :=
  if 0 <=? e then JS.round 0 (m * 10 ^ e * JS.one)
  else
    let d := 10 ^ (- e) in
    let n := m * 2 ^ (1074 + 64) in
    JS.round 65 (2 * (n / d) + (if n mod d =? 0 then 0 else 1)).

Definition radix_of (c : ascii) : option Z :=
  let n := code c in
  if (n =? 120) || (n =? 88) then Some 16
  else if (n =? 111) || (n =? 79) then Some 8
  else if (n =? 98) || (n =? 66) then Some 2
  else None.

Definition read_radix (s : list ascii) : option JS.num :=
  match s with
  | z :: c :: r =>
      if code z =? 48 then
        match radix_of c with
        | Some b =>
            let '(v, n, rest) := read_digits b 0 0 r in
            match rest with
            | [] => if 0 <? n then Some (JS.lit v) else None
            | _ => None
            end
        | None => None
        end
      else None
  | _ => None
  end.

Definition StringToNumber (s : string) : JS.num :=
  let t := trim (list_ascii_of_string s) in
  match t with
  | [] => JS.Fin 0
  | _ =>
      match read_radix t with
      | Some v => v
      | None =>
          let (neg, u) := read_sign t in
          if String.eqb (string_of_list_ascii u) "Infinity" then JS.Inf neg
          else
            match read_decimal u with
            | Some (m, e) =>
                if neg then JS.opp (of_decimal m e) else of_decimal m e
            | None => JS.NaN
            end
      end
  end.

End Str.

(** ** The application *)
Module App.

(** *** Data model *)

(** The values an [id] of the catalog payload can hold. *)
Inductive prim : Type :=
| PUndefined
| PNull
| PBool (b : bool)
| PNum (n : JS.num)
| PStr (s : string).

(** [Number(v)]. *)
Definition Number (v : prim) : JS.num :=
  match v with
  | PUndefined => JS.NaN
  | PNull => JS.Fin 0
  | PBool b => if b then JS.lit 1 else JS.Fin 0
  | PNum n => n
  | PStr s => Str.StringToNumber s
  end.

Record RawItem : Type := {
  id : prim;
  title : string;
  url : string;
  thumbnailUrl : string
}.

(** [{ ...photo, category, price }]; a [category] of [None] is [undefined]. *)
Record Item : Type := {
  photo : RawItem;
  category : option string;
  price : JS.num
}.

Module Filters.
Record t : Type := {
  search : string;
  category : string;
  minPrice : string;
  maxPrice : string;
  sort : string
}.
End Filters.

(** *** [Math.random]

    The generator is the sequence of the values its next calls return. *)
Definition rng : Type := nat -> JS.num.

Definition Math_random (g : rng) : JS.num * rng :=
  (g 0%nat, fun n => g (S n)).

(** *** [augment] *)

Definition categories : list string :=
  ["Mobile"; "Laptop"; "Accessories"; "Home"; "Grocery"]%string.

(** [categories[i]]. *)
Definition category_at (i : JS.num) : option string :=
  match JS.index i with
  | Some n => nth_error categories n
  | None => None
  end.

(** [augment] of [ProductList]:
    [Number(photo.id) || Math.floor(Math.random() * 1000)] calls the
    generator only when its left operand is falsy. *)
Definition augment (photo : RawItem) (g : rng) : Item * rng :=
  let n := Number (id photo) in
  let (id, g') :=
    if JS.truthy n then (n, g)
    else
      let (u, g') := Math_random g in
      (JS.floor (JS.mul u (JS.lit 1000)), g') in
  let category :=
    category_at (JS.rem id (JS.lit (Z.of_nat (length categories)))) in
  let price :=
    JS.floor (JS.add (JS.rem (JS.mul id (JS.lit 97)) (JS.lit 149500))
                     (JS.lit 500)) in
  ({| photo := photo; category := category; price := price |}, g').

(** The arrow function that [ProductDetails] maps over the payload, with
    the array of labels it declares for itself. *)
Definition details_categories : list string :=
  ["Mobile"; "Laptop"; "Accessories"; "Home"; "Grocery"]%string.

Definition details_augment (photo : RawItem) (g : rng) : Item * rng :=
  let n := Number (id photo) in
  let (idn, g') :=
    if JS.truthy n then (n, g)
    else
      let (u, g') := Math_random g in
      (JS.floor (JS.mul u (JS.lit 10000)), g') in
  let category :=
    match JS.index (JS.rem idn (JS.lit (Z.of_nat (length details_categories)))) with
    | Some i => nth_error details_categories i
    | None => None
    end in
  let price :=
    JS.floor (JS.add (JS.rem (JS.mul idn (JS.lit 97)) (JS.lit 149500))
                     (JS.lit 500)) in
  ({| photo := photo; category := category; price := price |}, g').

(** [arr.map(f)] for an [f] that draws from the generator. *)
Fixpoint map_rng (f : RawItem -> rng -> Item * rng) (arr : list RawItem)
    (g : rng) : list Item * rng :=
  match arr with
  | [] => ([], g)
  | p :: r =>
      let (x, g1) := f p g in
      let (xs, g2) := map_rng f r g1 in
      (x :: xs, g2)
  end.

(** *** [Array.prototype.sort]

    [SortCompare] reads a [NaN] from the comparator as [+0].  The sort is
    stable (ECMAScript 2019), and for a consistent comparator its result is
    determined; it is modelled by a stable insertion sort. *)
Section Sort.
Context {A : Type} (comparefn : A -> A -> JS.num).

Definition SortCompare (x y : A) : JS.num :=
  match comparefn x y with
  | JS.NaN => JS.Fin 0
  | v => v
  end.

(** [x] is not after [y]: the comparator returns no positive number. *)
Definition not_after (x y : A) : bool := JS.le (SortCompare x y) (JS.Fin 0).

Fixpoint insert (x : A) (l : list A) : list A :=
  match l with
  | [] => [x]
  | y :: r => if not_after x y then x :: y :: r else y :: insert x r
  end.

Definition Array_sort (l : list A) : list A := fold_right insert [] l.
End Sort.

(** *** The [filtered] pipeline of [ProductList] *)

Definition by_search (f : Filters.t) (p : Item) : bool :=
  Str.includes (Str.toLowerCase (title (photo p)))
               (Str.toLowerCase (Filters.search f)).

(** [p.category === filters.category]. *)
Definition by_category (f : Filters.t) (p : Item) : bool :=
  match category p with
  | Some c => String.eqb c (Filters.category f)
  | None => false
  end.

Definition minP (f : Filters.t) : JS.num :=
  JS.or_else (Str.StringToNumber (Filters.minPrice f)) (JS.Inf true).

Definition maxP (f : Filters.t) : JS.num :=
  JS.or_else (Str.StringToNumber (Filters.maxPrice f)) (JS.Inf false).

Definition by_price (f : Filters.t) (p : Item) : bool :=
  JS.ge (price p) (minP f) && JS.le (price p) (maxP f).

Definition asc (a b : Item) : JS.num := JS.sub (price a) (price b).
Definition desc (a b : Item) : JS.num := JS.sub (price b) (price a).

Definition filtered (items : list Item) (filters : Filters.t) : list Item :=
  let out := items in
  let out :=
    if Str.truthy (Filters.search filters)
    then List.filter (by_search filters) out else out in
  let out :=
    if Str.truthy (Filters.category filters)
    then List.filter (by_category filters) out else out in
  let out := List.filter (by_price filters) out in
  let out :=
    if String.eqb (Filters.sort filters) "asc" then Array_sort asc out else out in
  let out :=
    if String.eqb (Filters.sort filters) "desc" then Array_sort desc out else out in
  out.

(** *** The pipeline over a store of arrays

    JavaScript arrays are objects: [slice] and [filter] allocate a new array,
    [sort] rearranges the array it is called on and returns it.  A store maps
    the address of an array to its elements. *)
Definition loc : Type := positive.
Abbreviation store := (gmap loc (list Item)).

Definition alloc (h : store) (l : list Item) : store * loc :=
  let a := fresh (dom h) in (<[a := l]> h, a).

(** [a.slice()]. *)
Definition Array_slice (h : store) (a : loc) : option (store * loc) :=
  l ← h !! a; Some (alloc h l).

(** [a.filter(keep)]. *)
Definition Array_filter (keep : Item -> bool) (h : store) (a : loc)
    : option (store * loc) :=
  l ← h !! a; Some (alloc h (List.filter keep l)).

(** [a.sort(comparefn)]: in place, returns [a]. *)
Definition Array_sort_at (comparefn : Item -> Item -> JS.num) (h : store)
    (a : loc) : option (store * loc) :=
  l ← h !! a; Some (<[a := Array_sort comparefn l]> h, a).

(** The body of the [filtered] memo, [out] being a variable that holds an
    address.  The result is [None] only if [items] is not in the store. *)
Definition filtered_at (h : store) (items : loc) (filters : Filters.t)
    : option (store * loc) :=
  '(h, out) ← Array_slice h items;
  '(h, out) ←
    (if Str.truthy (Filters.search filters)
     then Array_filter (by_search filters) h out else Some (h, out));
  '(h, out) ←
    (if Str.truthy (Filters.category filters)
     then Array_filter (by_category filters) h out else Some (h, out));
  '(h, out) ← Array_filter (by_price filters) h out;
  '(h, out) ←
    (if String.eqb (Filters.sort filters) "asc"
     then Array_sort_at asc h out else Some (h, out));
  '(h, out) ←
    (if String.eqb (Filters.sort filters) "desc"
     then Array_sort_at desc h out else Some (h, out));
  Some (h, out).

(** *** Session token, route guard and catalog load *)

(** The parsed body of a response.  An object is its list of properties,
    keys distinct.  An array is an array of photos: each element is a photo
    record or [null] (the element [None]), on which the functions mapped
    over the array throw.  Arrays with elements of other kinds are not
    values of the model: what the code stores for such an element is no
    [Item], it has no text title. *)
#[local] Unset Elimination Schemes.
Inductive json : Type :=
| JNull
| JBool (b : bool)
| JNumber (n : JS.num)
| JString (s : string)
| JPhotos (arr : list (option RawItem))
| JObject (props : list (string * json)).
#[local] Set Elimination Schemes.

(** The outcome of [fetch] followed by [res.json()]. *)
Inductive fetch_result : Type :=
| NetworkError
| Response (ok : bool) (body : option json).

(** The browser state the components read and write: the ["token"] entry of
    [localStorage], the current route, the state of [ProductList], the
    alerts shown, and the random generator. *)
Record world : Type := {
  token : option string;
  route : string;
  items : list Item;
  loading : bool;
  alerts : list string;
  random : rng
}.

Definition getToken (w : world) : option string := token w.

Definition removeToken (w : world) : world :=
  {| token := None; route := route w; items := items w;
     loading := loading w; alerts := alerts w; random := random w |}.

Definition saveToken (t : string) (w : world) : world :=
  {| token := Some t; route := route w; items := items w;
     loading := loading w; alerts := alerts w; random := random w |}.

Definition navigate (to : string) (w : world) : world :=
  {| token := token w; route := to; items := items w;
     loading := loading w; alerts := alerts w; random := random w |}.

Definition setLoading (b : bool) (w : world) : world :=
  {| token := token w; route := route w; items := items w;
     loading := b; alerts := alerts w; random := random w |}.

Definition alert (msg : string) (w : world) : world :=
  {| token := token w; route := route w; items := items w;
     loading := loading w; alerts := alerts w ++ [msg]; random := random w |}.

Definition setItems (l : list Item) (g : rng) (w : world) : world :=
  {| token := token w; route := route w; items := l;
     loading := loading w; alerts := alerts w; random := g |}.

(** The state after calls of [Math.random] that leave the generator [g]. *)
Definition setRandom (g : rng) (w : world) : world :=
  {| token := token w; route := route w; items := items w;
     loading := loading w; alerts := alerts w; random := g |}.

(** [!token] for the value [getToken] returns: [null] and the empty string
    are falsy. *)
Definition no_token (t : option string) : bool :=
  match t with
  | Some s => negb (Str.truthy s)
  | None => true
  end.

Inductive view : Type :=
| Navigate (to : string)
| Children.

Definition PrivateRoute (w : world) : view :=
  if no_token (getToken w) then Navigate "/login" else Children.

(** [v?.key]; [None] is [undefined]. *)
Definition get (v : option json) (key : string) : option json :=
  match v with
  | Some (JObject props) =>
      match List.find (fun kv => String.eqb (fst kv) key) props with
      | Some kv => Some (snd kv)
      | None => None
      end
  | _ => None
  end.

(** [ToBoolean] of a value of the payload. *)
Definition json_truthy (v : option json) : bool :=
  match v with
  | None | Some JNull => false
  | Some (JBool b) => b
  | Some (JNumber n) => JS.truthy n
  | Some (JString s) => Str.truthy s
  | Some (JPhotos _) | Some (JObject _) => true
  end.

(** [data?.data?.photos?.data || data?.photos?.data || []]. *)
Definition unwrap (data : json) : json :=
  let a := get (get (get (Some data) "data") "photos") "data" in
  if json_truthy a then default JNull a
  else
    let b := get (get (Some data) "photos") "data" in
    if json_truthy b then default JNull b else JPhotos [].

(** The outcome of a [try] block. *)
Inductive outcome (A : Type) : Type :=
| Returned (a : A)
| Thrown (a : A).
Arguments Returned {A} a.
Arguments Thrown {A} a.

(** [arr.map(f)] for an array of photos and an [f] that reads [photo.id]
    first: on an element that is [null] this throws a [TypeError], the
    result [None]; the elements before it have been mapped and their draws
    from the generator made, the elements after it are not reached. *)
Fixpoint map_photos (f : RawItem -> rng -> Item * rng)
    (arr : list (option RawItem)) (g : rng) : option (list Item) * rng :=
  match arr with
  | [] => (Some [], g)
  | None :: _ => (None, g)
  | Some p :: r =>
      let (x, g1) := f p g in
      let (xs, g2) := map_photos f r g1 in
      (option_map (cons x) xs, g2)
  end.

(** The [try] block of [load]: the state it leaves, returned or thrown.
    [fetch] and [res.json()] throw when they reject, and [arr.map(augment)]
    throws when [arr] is no array and when an element of [arr] is [null]. *)
Definition load_try (w : world) (r : fetch_result) : outcome world :=
  if no_token (getToken w) then Returned (navigate "/login" w)
  else
    match r with
    | NetworkError => Thrown w
    | Response _ None => Thrown w
    | Response _ (Some data) =>
        match unwrap data with
        | JPhotos arr =>
            let (products, g) := map_photos augment arr (random w) in
            match products with
            | Some products => Returned (setItems products g w)
            | None => Thrown (setRandom g w)
            end
        | _ => Thrown w
        end
    end.

Definition load (w : world) (r : fetch_result) : world :=
  let w := setLoading true w in
  let w :=
    match load_try w r with
    | Returned w => w
    | Thrown w =>
        navigate "/login"
          (removeToken
             (alert
                "Failed to fetch products (token might be invalid). Please login again."
                w))
    end in
  setLoading false w.

End App.

(** ** Vocabulary of the properties

    What the statements below say about the program, in terms of the
    definitions above. *)
Module Spec.
Import App.

(** [a < b]. *)
Definition lt (a b : JS.num) : bool := JS.le a b && negb (JS.le b a).

(** A value [Math.random] may return: a double in [[0, 1)]. *)
Definition unit_sample (u : JS.num) : Prop :=
  exists j, u = JS.Fin j /\ 0 <= j < JS.one /\ JS.is_double j.

(** The derived attributes the specification assigns to the integer id
    [z]: the label at [z mod 5] and the price [((z * 97) mod 149500) + 500]. *)
Definition derived (z : Z) (p : RawItem) : Item :=
  {| photo := p;
     category := nth_error categories (Z.to_nat (z mod 5));
     price := JS.lit (z * 97 mod 149500 + 500) |}.

(** The price lies in [[500, 150000)]. *)
Definition in_range (p : JS.num) : Prop :=
  JS.le (JS.lit 500) p = true /\ lt p (JS.lit 150000) = true.

(** The three filter steps of the pipeline as one predicate. *)
Definition keeps (f : Filters.t) (p : Item) : bool :=
  (negb (Str.truthy (Filters.search f)) || by_search f p)
  && (negb (Str.truthy (Filters.category f)) || by_category f p)
  && by_price f p.

(** A price bound as the specification words it: the number the text
    denotes, and the default when the text is unset (empty) or
    non-numeric. *)
Definition stated_bound (dflt : JS.num) (s : string) : JS.num :=
  match s with
  | EmptyString => dflt
  | _ =>
      match Str.StringToNumber s with
      | JS.NaN => dflt
      | v => v
      end
  end.

(** A price bound as the pipeline reads it: the default also when the text
    denotes zero. *)
Definition effective_bound (dflt : JS.num) (s : string) : JS.num :=
  match Str.StringToNumber s with
  | JS.NaN => dflt
  | JS.Fin 0 => dflt
  | v => v
  end.

(** An item meets the criteria of a filter, for a given reading of the two
    price bounds. *)
Definition meets (bound : JS.num -> string -> JS.num) (f : Filters.t)
    (p : Item) : Prop :=
  (Filters.search f <> EmptyString ->
   Str.includes (Str.toLowerCase (title (photo p)))
                (Str.toLowerCase (Filters.search f)) = true)
  /\ (Filters.category f <> EmptyString -> category p = Some (Filters.category f))
  /\ JS.le (bound (JS.Inf true) (Filters.minPrice f)) (price p) = true
  /\ JS.le (price p) (bound (JS.Inf false) (Filters.maxPrice f)) = true.

(** Prices along a list never decrease, respectively never increase. *)
Definition nondecreasing (l : list Item) : Prop :=
  forall i j a b, (i < j)%nat -> nth_error l i = Some a -> nth_error l j = Some b ->
                  JS.le (price a) (price b) = true.

Definition nonincreasing (l : list Item) : Prop :=
  forall i j a b, (i < j)%nat -> nth_error l i = Some a -> nth_error l j = Some b ->
                  JS.le (price b) (price a) = true.

(** The item has exactly the price [v]. *)
Definition has_price (v : JS.num) (p : Item) : bool :=
  match price p, v with
  | JS.NaN, JS.NaN => true
  | JS.Inf s, JS.Inf t => Bool.eqb s t
  | JS.Fin a, JS.Fin b => a =? b
  | _, _ => false
  end.

Definition with_minPrice (s : string) (f : Filters.t) : Filters.t :=
  {| Filters.search := Filters.search f; Filters.category := Filters.category f;
     Filters.minPrice := s; Filters.maxPrice := Filters.maxPrice f;
     Filters.sort := Filters.sort f |}.

Definition with_maxPrice (s : string) (f : Filters.t) : Filters.t :=
  {| Filters.search := Filters.search f; Filters.category := Filters.category f;
     Filters.minPrice := Filters.minPrice f; Filters.maxPrice := s;
     Filters.sort := Filters.sort f |}.

(** A load that ends in the [catch] branch: [fetch] rejects, the body is
    not JSON, or the unwrapped payload is no array. *)
Definition rejects (r : fetch_result) : bool :=
  match r with
  | NetworkError => true
  | Response _ None => true
  | Response _ (Some data) =>
      match unwrap data with
      | JPhotos _ => false
      | _ => true
      end
  end.

(** A fetch failure in the sense of the specification: a network error, a
    response without success status, or a payload that is not the catalog
    (neither envelope holds an array of photos). *)
Definition fetch_failure (r : fetch_result) : bool :=
  match r with
  | NetworkError => true
  | Response ok None => true
  | Response ok (Some data) =>
      negb ok
      || match get (get (get (Some data) "data") "photos") "data",
               get (get (Some data) "photos") "data" with
         | Some (JPhotos _), _ | _, Some (JPhotos _) => false
         | _, _ => true
         end
  end.

(** The session is gone: no token is stored, the route is the login entry
    point and the guard redirects. *)
Definition logged_out (w : world) : Prop :=
  token w = None /\ route w = "/login"%string /\ PrivateRoute w = Navigate "/login".

End Spec.

(** ** Notions used by the proofs *)
Module Aux.
Import App.

(** The integer [JS.round] keeps for a non-negative argument. *)
Definition kept (x n : Z) : Z :=
  JS.rne n (Z.max (JS.bits n - 53) x) * 2 ^ (Z.max (JS.bits n - 53) x - x).

(** A non-negative double, as significand and exponent. *)
Definition repr (k : Z) : Prop :=
  exists m e, k = m * 2 ^ e /\ 0 <= m < 2 ^ 53 /\ 0 <= e.

(** The reading of a number of the Standard Library's specification of
    IEEE-754 arithmetic ([SpecFloat], here at binary64) in the model, and the
    [spec_float] of the double [k * 2^-1074]. *)
Definition of_spec_float (f : spec_float) : JS.num :=
  match f with
  | S754_zero _ => JS.Fin 0
  | S754_infinity s => JS.Inf s
  | S754_nan => JS.NaN
  | S754_finite s m e => JS.Fin ((if s then -1 else 1) * Z.pos m * 2 ^ (e + 1074))
  end.

Definition to_spec_float (k : Z) : spec_float :=
  binary_normalize 53 1024 k (-1074) false.

(** Doubles of all kinds: zero, the least subnormal, subnormals, the least
    normal, 0.1, 1, 1.5, 97, 149500, [2^53 - 1], [2^53], 1e22, numbers near
    [2^512], and the greatest double; each also negated. *)
Definition sample_doubles : list Z :=
  let pos :=
    [0; 1; 3; 2 ^ 52 - 1; 2 ^ 52; 3602879701896397 * 2 ^ 1019; 2 ^ 1074;
     3 * 2 ^ 1073; 97 * 2 ^ 1074; 149500 * 2 ^ 1074; (2 ^ 53 - 1) * 2 ^ 1074;
     2 ^ 53 * 2 ^ 1074; 10 ^ 22 * 2 ^ 1074; 6369051672525773 * 2 ^ 1534;
     (2 ^ 53 - 1) * 2 ^ 1560; (2 ^ 53 - 1) * 2 ^ 2045] in
  pos ++ List.map Z.opp pos.

Definition same_num (a b : JS.num) : bool :=
  match a, b with
  | JS.NaN, JS.NaN => true
  | JS.Inf s, JS.Inf t => Bool.eqb s t
  | JS.Fin j, JS.Fin k => j =? k
  | _, _ => false
  end.

(** An operation of the model and one of [SpecFloat] agree on all pairs of
    samples. *)
Definition agree (op : JS.num -> JS.num -> JS.num)
    (sf : spec_float -> spec_float -> spec_float) : bool :=
  forallb
    (fun ab =>
       same_num (op (JS.Fin (fst ab)) (JS.Fin (snd ab)))
                (of_spec_float (sf (to_spec_float (fst ab)) (to_spec_float (snd ab)))))
    (list_prod sample_doubles sample_doubles).

(** The price expression of [augment] for the id [i]. *)
Definition price_of (i : JS.num) : JS.num :=
  JS.floor (JS.add (JS.rem (JS.mul i (JS.lit 97)) (JS.lit 149500)) (JS.lit 500)).

(** The last two steps of the pipeline. *)
Definition sort_stage (f : Filters.t) (l : list Item) : list Item :=
  let out :=
    if String.eqb (Filters.sort f) "asc" then Array_sort asc l else l in
  if String.eqb (Filters.sort f) "desc" then Array_sort desc out else out.

(** No item of the list has the price [NaN]. *)
Definition priced (l : list Item) : Prop :=
  Forall (fun p => price p <> JS.NaN) l.

(** In the store [h], which extends [h0] without changing it, the array at
    the address [out] is new and holds [v]. *)
Definition carries (h0 h : store) (out : loc) (v : list Item) : Prop :=
  h !! out = Some v
  /\ (out ∉ dom h0)
  /\ (forall a, a ∈ dom h0 -> h !! a = h0 !! a).

End Aux.

(** ** Concrete inputs *)
Module Ex.
Import App.
Local Open Scope string_scope.

(** Generators that always return 0.5, respectively [2^-9]. *)
Definition half : rng := fun _ => JS.Fin (2 ^ 1073).
Definition low : rng := fun _ => JS.Fin (2 ^ 1065).

Definition photo_of (i : prim) : RawItem :=
  {| id := i; title := "Red Phone"; url := "u"; thumbnailUrl := "t" |}.

Definition zero : RawItem := photo_of (PNum (JS.lit 0)).
Definition minus_one : RawItem := photo_of (PNum (JS.lit (-1))).
Definition largest : RawItem := photo_of (PNum (JS.lit (2 ^ 53 - 1))).
Definition ten : RawItem := photo_of (PStr "10").
Definition huge : RawItem := photo_of (PStr "1e307").
Definition missing : RawItem := photo_of PUndefined.

Definition item (i : Z) (t c : string) (p : Z) : Item :=
  {| photo := {| id := PNum (JS.lit i); title := t; url := "u"; thumbnailUrl := "t" |};
     category := Some c;
     price := JS.lit p |}.

Definition no_filter : Filters.t :=
  {| Filters.search := ""; Filters.category := ""; Filters.minPrice := "";
     Filters.maxPrice := ""; Filters.sort := "" |}.

Definition sorted_by (s : string) : Filters.t :=
  {| Filters.search := ""; Filters.category := ""; Filters.minPrice := "";
     Filters.maxPrice := ""; Filters.sort := s |}.

Definition max_zero : Filters.t :=
  {| Filters.search := ""; Filters.category := ""; Filters.minPrice := "";
     Filters.maxPrice := "0"; Filters.sort := "" |}.

Definition blue_laptops : Filters.t :=
  {| Filters.search := "blue"; Filters.category := "Laptop"; Filters.minPrice := "600";
     Filters.maxPrice := "1e3"; Filters.sort := "desc" |}.

(** Four items of a catalog view, two of them with the same price. *)
Definition phone : Item := item 1 "Red Phone" "Laptop" 597.
Definition laptop : Item := item 2 "Blue Laptop" "Laptop" 694.
Definition tablet : Item := item 7 "Blue Tablet" "Laptop" 694.
Definition cable : Item := item 3 "BLUE cable" "Laptop" 791.

(** A signed-in browser on the catalog route. *)
Definition signed_in : world :=
  {| token := Some "t0k3n"; route := "/products"; items := [];
     loading := true; alerts := []; random := half |}.

(** A 401 response whose body is the JSON object [{"error": "Invalid token"}]. *)
Definition unauthorized : fetch_result :=
  Response false (Some (JObject [("error", JString "Invalid token")])).

(** A 200 response whose body is the JSON object [{}]. *)
Definition empty_object : fetch_result :=
  Response true (Some (JObject [])).

(** A 200 response whose [photos.data] is a string. *)
Definition wrong_shape : fetch_result :=
  Response true
    (Some (JObject [("photos", JObject [("data", JString "oops")])])).

End Ex.

(** ** The other components

    [Number::toString], the conversions to text and the loose equality that
    the pages rely on, and then the handlers of [Signup] and [Login], the
    header of [Layout], [minMax] of [ProductList] and the effect of
    [ProductDetails]. *)
Module Conv.

(** The decimal digits of a non-negative integer. *)
Fixpoint digits (fuel : nat) (z : Z) (acc : list ascii) : list ascii :=
  match fuel with
  | O => acc
  | S f =>
      let acc' := Str.of_code (48 + z mod 10) :: acc in
      if z <? 10 then acc' else digits f (z / 10) acc'
  end.

Definition decimal (z : Z) : list ascii :=
  digits (S (Z.to_nat (Z.log2 z))) z [].

(** The least [m], from the given one on, with [k * 10^m >= 2^1074]. *)
Fixpoint scale_up (fuel : nat) (k m : Z) : Z :=
  match fuel with
  | O => m
  | S f => if JS.one <=? k * 10 ^ m then m else scale_up f k (m + 1)
  end.

(** The [n] with [10^(n-1) <= k * 2^-1074 < 10^n], for [k > 0]. *)
Definition magnitude (k : Z) : Z :=
  if JS.one <=? k then Z.of_nat (List.length (decimal (k / JS.one)))
  else 1 - scale_up 400 k 1.

(** The integer below [k * 2^-1074 / 10^e], and whether it is nearer to
    that quotient than the next integer (or as near, and even). *)
Definition around (k e : Z) : Z * bool :=
  let num := if 0 <=? e then k else k * 10 ^ (- e) in
  let den := if 0 <=? e then JS.one * 10 ^ e else JS.one in
  let lo := num / den in
  let r := num mod den in
  (lo, (2 * r <? den) || ((2 * r =? den) && Z.even lo)).

(** The decimal [s * 10^e] converts to the double [k]. *)
Definition reads_as (k s e : Z) : bool :=
  match Str.of_decimal s e with
  | JS.Fin j => j =? k
  | _ => false
  end.

(** Step 5 of [Number::toString]: the integer [s] with the fewest digits,
    [d] of them or more, and the [n] such that [s * 10^(n - digits)] converts
    to the double [k > 0]; of two such [s], the one nearer to [k]. *)
Fixpoint shortest (fuel : nat) (k n0 d : Z) : Z * Z :=
  let e := n0 - d in
  let (lo, lower) := around k e in
  let hi := lo + 1 in
  let pick (s : Z) := if s =? 10 ^ d then (10 ^ (d - 1), n0 + 1) else (s, n0) in
  match fuel with
  | O => pick lo
  | S f =>
      match reads_as k lo e, reads_as k hi e with
      | true, true => pick (if lower then lo else hi)
      | true, false => pick lo
      | false, true => pick hi
      | false, false => shortest f k n0 (d + 1)
      end
  end.

Definition zeros (n : Z) : list ascii := repeat "0"%char (Z.to_nat n).

Definition exponent_part (n : Z) : list ascii :=
  ["e"%char; if 0 <=? n - 1 then "+"%char else "-"%char]
  ++ decimal (Z.abs (n - 1)).

(** Steps 6 to 10: the digits [ds] with the decimal point after the first
    [n] of them. *)
Definition format (ds : list ascii) (n : Z) : list ascii :=
  let k := Z.of_nat (List.length ds) in
  if (k <=? n) && (n <=? 21) then ds ++ zeros (n - k)
  else if (0 <? n) && (n <=? 21) then
    firstn (Z.to_nat n) ds ++ "."%char :: skipn (Z.to_nat n) ds
  else if (-6 <? n) && (n <=? 0) then
    "0"%char :: "."%char :: zeros (- n) ++ ds
  else
    match ds with
    | [d] => d :: exponent_part n
    | d :: r => d :: "."%char :: r ++ exponent_part n
    | [] => []
    end.

(** [Number::toString(x)], radix 10. *)
Definition NumberToString (x : JS.num) : string :=
  match x with
  | JS.NaN => "NaN"
  | JS.Inf s => if s then "-Infinity" else "Infinity"
  | JS.Fin k =>
      if k =? 0 then "0"
      else
        let a := Z.abs k in
        let (s, n) := shortest 17 a (magnitude a) 1 in
        string_of_list_ascii
          ((if k <? 0 then ["-"%char] else []) ++ format (decimal s) n)
  end.

End Conv.

Module Pages.
Import App.
Local Open Scope string_scope.

(** *** Conversions *)

(** [String(v)] for an id. *)
Definition String_of (v : prim) : string :=
  match v with
  | PUndefined => "undefined"
  | PNull => "null"
  | PBool b => if b then "true" else "false"
  | PNum n => Conv.NumberToString n
  | PStr s => s
  end.

(** [ToString] of a value of the payload, the argument [None] being
    [undefined]: an array joins the texts of its elements with commas, the
    empty text for [null] and "[object Object]" for a photo record; an
    object reads "[object Object]", unless it has a property [toString] of
    its own, which no JSON value makes callable: the conversion then throws
    a [TypeError], the result [None]. *)
Definition to_string (v : option json) : option string :=
  match v with
  | None => Some "undefined"
  | Some JNull => Some "null"
  | Some (JBool b) => Some (if b then "true" else "false")
  | Some (JNumber n) => Some (Conv.NumberToString n)
  | Some (JString s) => Some s
  | Some (JPhotos arr) =>
      Some (String.concat ","
              (List.map (fun e : option RawItem =>
                           match e with
                           | Some _ => "[object Object]"
                           | None => ""
                           end) arr))
  | Some (JObject props) =>
      if existsb (fun kv => String.eqb (fst kv) "toString") props
      then None else Some "[object Object]"
  end.

(** [a === b] on numbers. *)
Definition num_eq (a b : JS.num) : bool :=
  match a, b with
  | JS.Fin j, JS.Fin k => (j =? k)%Z
  | JS.Inf s, JS.Inf t => Bool.eqb s t
  | _, _ => false
  end.

(** [v == s] for an id [v] and a string [s]: a number or a boolean is
    compared with the number [s] converts to, [null] and [undefined] equal
    no string. *)
Definition loose_eq (v : prim) (s : string) : bool :=
  match v with
  | PStr t => String.eqb t s
  | PNum n => num_eq n (Str.StringToNumber s)
  | PBool b => num_eq (Number (PBool b)) (Str.StringToNumber s)
  | PUndefined | PNull => false
  end.

(** [data.key]: [None] when the access throws, which it does on [null]. *)
Definition prop (data : json) (key : string) : option (option json) :=
  match data with
  | JNull => None
  | _ => Some (get (Some data) key)
  end.

(** *** [Layout] *)

Definition logout (w : world) : world := navigate "/login" (removeToken w).

(** The links of the header. *)
Definition Layout_nav (w : world) : list string :=
  if no_token (getToken w) then ["Login"; "Signup"] else ["Products"; "Logout"].

(** *** [Signup] *)

(** [alert(data.error || fallback)], in an [else] branch; [alert] shows the
    text of its argument. *)
Definition alert_error (fallback : string) (data : json) (w : world)
    : outcome world :=
  match prop data "error" with
  | None => Thrown w
  | Some e =>
      if json_truthy e then
        match to_string e with
        | Some s => Returned (alert s w)
        | None => Thrown w
        end
      else Returned (alert fallback w)
  end.

Definition Signup_try (w : world) (r : fetch_result) : outcome world :=
  match r with
  | NetworkError => Thrown w
  | Response _ None => Thrown w
  | Response ok (Some data) =>
      if ok
      then Returned (navigate "/login" (alert "Signup successful. Please login." w))
      else alert_error "Signup failed" data w
  end.

(** [handleSubmit] of [Signup], for the outcome of its request. *)
Definition Signup_handleSubmit (w : world) (r : fetch_result) : world :=
  match Signup_try w r with
  | Returned w => w
  | Thrown w => alert "Signup failed" w
  end.

(** *** [Login] *)

Definition Login_try (w : world) (r : fetch_result) : outcome world :=
  match r with
  | NetworkError => Thrown w
  | Response _ None => Thrown w
  | Response ok (Some data) =>
      if ok then
        match prop data "token" with
        | None => Thrown w
        | Some t =>
            if json_truthy t then
              match to_string t with
              | Some s => Returned (navigate "/products" (saveToken s w))
              | None => Thrown w
              end
            else alert_error "Login failed" data w
        end
      else alert_error "Login failed" data w
  end.

(** [handleSubmit] of [Login]; [saveToken] stores the text of its argument,
    as [localStorage.setItem] does. *)
Definition Login_handleSubmit (w : world) (r : fetch_result) : world :=
  match Login_try w r with
  | Returned w => w
  | Thrown w => alert "Login failed" w
  end.

(** *** [minMax] of [ProductList] *)

(** [Math.min(...l)] and [Math.max(...l)]: [NaN] as soon as one argument is
    [NaN].  How many arguments an engine accepts is not modelled. *)
Definition Math_min (l : list JS.num) : JS.num :=
  fold_right
    (fun x acc =>
       match x, acc with
       | JS.NaN, _ | _, JS.NaN => JS.NaN
       | _, _ => if JS.le x acc then x else acc
       end)
    (JS.Inf false) l.

Definition Math_max (l : list JS.num) : JS.num :=
  fold_right
    (fun x acc =>
       match x, acc with
       | JS.NaN, _ | _, JS.NaN => JS.NaN
       | _, _ => if JS.le acc x then x else acc
       end)
    (JS.Inf true) l.

Record range : Type := { min : JS.num; max : JS.num }.

Definition minMax (items : list Item) : range :=
  match items with
  | [] => {| min := JS.Fin 0; max := JS.Fin 0 |}
  | _ =>
      let prices := List.map price items in
      {| min := Math_min prices; max := Math_max prices |}
  end.

(** *** The effect of [ProductDetails] *)

(** [String(p.id) === String(id)]. *)
Definition has_id (id : string) (p : Item) : bool :=
  String.eqb (String_of (App.id (photo p))) id.

(** The fallback of the effect: fetch the catalog again and find the id.
    The result is the browser state and the [product] state of the page;
    the [catch] branch only logs, so after a throw (no array, or an element
    that is [null]) [setProduct] has not been called. *)
Definition details_fetch (w : world) (id : string) (product : option Item)
    (r : fetch_result) : world * option Item :=
  if no_token (getToken w) then (navigate "/login" w, product)
  else
    match r with
    | NetworkError => (w, product)
    | Response _ None => (w, product)
    | Response _ (Some data) =>
        match unwrap data with
        | JPhotos arr =>
            let (found, g) := map_photos details_augment arr (random w) in
            match found with
            | Some l => (setRandom g w, List.find (has_id id) l)
            | None => (setRandom g w, product)
            end
        | _ => (w, product)
        end
    end.

(** The effect, for the route parameter [id], the product found in the
    history state ([st.product], [None] when a link of
    [window.history.state.usr.state.product] is missing), the current
    [product] state and the outcome of the request. *)
Definition details_effect (w : world) (id : string) (st_product : option Item)
    (product : option Item) (r : fetch_result) : world * option Item :=
  match st_product with
  | Some p =>
      if loose_eq (App.id (photo p)) id then (w, Some p)
      else details_fetch w id product r
  | None => details_fetch w id product r
  end.

End Pages.

(** ** Further vocabulary and inputs *)
Module More.
Import App.
Local Open Scope string_scope.

(** Two filters differ in the sort key at most. *)
Definition same_tests (f f' : Filters.t) : Prop :=
  Filters.search f = Filters.search f'
  /\ Filters.category f = Filters.category f'
  /\ Filters.minPrice f = Filters.minPrice f'
  /\ Filters.maxPrice f = Filters.maxPrice f'.

(** The filter [f'] asks for what [f] asks for, and possibly for a search
    text or a category where [f] has none. *)
Definition narrows (f f' : Filters.t) : Prop :=
  (Filters.search f = "" \/ Filters.search f = Filters.search f')
  /\ (Filters.category f = "" \/ Filters.category f = Filters.category f')
  /\ Filters.minPrice f = Filters.minPrice f'
  /\ Filters.maxPrice f = Filters.maxPrice f'.

(** The id converts to a positive integer [z] with [z * 97 < 2^53]. *)
Definition plain_id (p : RawItem) (z : Z) : Prop :=
  Number (id p) = JS.lit z /\ (0 < z)%Z /\ (z * 97 < 2 ^ 53)%Z.

(** The items the specification derives for a payload and the integers its
    ids convert to. *)
Definition derived_all (arr : list RawItem) (zs : list Z) : list Item :=
  List.map (fun pz => Spec.derived (snd pz) (fst pz)) (combine arr zs).

(** The message of a refused sign-up or login: the text of the body's
    [error] when that is truthy and has a text, the fallback otherwise. *)
Definition failure_text (fallback : string) (r : fetch_result) : string :=
  match r with
  | Response _ (Some data) =>
      if json_truthy (get (Some data) "error")
      then default fallback (Pages.to_string (get (Some data) "error"))
      else fallback
  | _ => fallback
  end.

(** The two places of a payload the code looks at. *)
Definition nested (data : json) : option json :=
  get (get (get (Some data) "data") "photos") "data".

Definition flat (data : json) : option json :=
  get (get (Some data) "photos") "data".

Definition search_for (s : string) : Filters.t :=
  {| Filters.search := s; Filters.category := ""; Filters.minPrice := "";
     Filters.maxPrice := ""; Filters.sort := "" |}.

Definition priced_between (lo hi : string) : Filters.t :=
  {| Filters.search := ""; Filters.category := ""; Filters.minPrice := lo;
     Filters.maxPrice := hi; Filters.sort := "asc" |}.

Definition photo_with (i t : string) : RawItem :=
  {| id := PStr i; title := t; url := "u"; thumbnailUrl := "t" |}.

(** A payload of three photos, in the GraphQL envelope, and the response
    that carries it. *)
Definition three : list RawItem :=
  [photo_with "1" "Red Phone"; photo_with "2" "Blue Laptop";
   photo_with "3" "Green Lamp"].

Definition catalog_body : json :=
  JObject
    [("data", JObject [("photos", JObject [("data", JPhotos (List.map Some three))])])].

Definition catalog : fetch_result := Response true (Some catalog_body).

(** The payload [{"photos": {"data": [photo, null]}}]. *)
Definition holed_body : json :=
  JObject
    [("photos",
      JObject [("data", JPhotos [Some (photo_with "1" "Red Phone"); None])])].

Definition holed : fetch_result := Response true (Some holed_body).

(** A login response with a token, one whose token is the array [[null]],
    and one without success status. *)
Definition granted : fetch_result :=
  Response true (Some (JObject [("token", JString "t0k3n")])).

Definition granted_nothing : fetch_result :=
  Response true (Some (JObject [("token", JPhotos [None])])).

Definition refused : fetch_result :=
  Response false
    (Some (JObject [("error", JString "Invalid credentials");
                    ("token", JString "t0k3n")])).

(** A browser without a token on the login route. *)
Definition signed_out : world :=
  {| token := None; route := "/login"; items := [];
     loading := false; alerts := []; random := Ex.half |}.

End More.

(** * Facts *)

Import Aux.

(** ** Rounding and the integer-valued numbers *)

Lemma one_pos : 0 < JS.one.
Proof. unfold JS.one. apply Z.pow_pos_nonneg; lia. Qed.

Lemma pow2_pos n : 0 <= n -> 0 < 2 ^ n.
Proof. intros. apply Z.pow_pos_nonneg; lia. Qed.

Lemma bits_spec a : 0 < a -> 2 ^ (JS.bits a - 1) <= a < 2 ^ JS.bits a.
Proof.
  intros Ha. unfold JS.bits. destruct (Z.eqb_spec a 0); [lia|].
  replace (Z.log2 a + 1 - 1) with (Z.log2 a) by lia.
  replace (Z.log2 a + 1) with (Z.succ (Z.log2 a)) by lia.
  apply Z.log2_spec; lia.
Qed.

Lemma bits_nonneg a : 0 <= JS.bits a.
Proof. unfold JS.bits. destruct (a =? 0); [lia|]. pose proof (Z.log2_nonneg a). lia. Qed.

Lemma bits_le a n : 0 <= a -> 0 <= n -> a < 2 ^ n -> JS.bits a <= n.
Proof.
  intros Ha0 Hn Ha. unfold JS.bits. destruct (Z.eqb_spec a 0); [lia|].
  assert (Z.log2 a < n) by (apply Z.log2_lt_pow2; lia). lia.
Qed.

Lemma rne_eq a sh :
  JS.rne a sh =
  if sh <=? 0 then a
  else if a mod 2 ^ sh <? 2 ^ (sh - 1) then a / 2 ^ sh
  else if 2 ^ (sh - 1) <? a mod 2 ^ sh then a / 2 ^ sh + 1
  else if Z.even (a / 2 ^ sh) then a / 2 ^ sh else a / 2 ^ sh + 1.
Proof.
  unfold JS.rne. destruct (Z.leb_spec sh 0); [reflexivity|].
  rewrite Z.shiftr_div_pow2, Z.land_ones, Z.shiftl_mul_pow2 by lia.
  rewrite Z.mul_1_l. reflexivity.
Qed.

Lemma round_eq x n :
  0 <= x ->
  JS.round x n =
  let a := Z.abs n in
  let sh := Z.max (JS.bits a - 53) x in
  let k := JS.rne a sh * 2 ^ (sh - x) in
  if 2 ^ 2098 <=? k then JS.Inf (n <? 0) else JS.Fin (Z.sgn n * k).
Proof.
  intros Hx. unfold JS.round. cbv zeta.
  rewrite Z.shiftl_mul_pow2 by lia. reflexivity.
Qed.

Lemma rne_exact a sh : 0 <= sh -> a mod 2 ^ sh = 0 -> JS.rne a sh * 2 ^ sh = a.
Proof.
  intros Hsh Hm. rewrite rne_eq.
  destruct (Z.leb_spec sh 0).
  - assert (sh = 0) by lia. subst. simpl. lia.
  - rewrite Hm. pose proof (pow2_pos (sh - 1)).
    destruct (Z.ltb_spec 0 (2 ^ (sh - 1))); [|lia].
    pose proof (Z.div_mod a (2 ^ sh)). pose proof (pow2_pos sh). lia.
Qed.

Lemma mod_pow2_mul c m s : 0 <= s <= m -> (c * 2 ^ m) mod 2 ^ s = 0.
Proof.
  intros H. replace m with ((m - s) + s) by lia.
  rewrite Z.pow_add_r by lia. rewrite Z.mul_assoc.
  apply Z.mod_mul. pose proof (pow2_pos s). lia.
Qed.

Lemma round_exact x n :
  0 <= x ->
  Z.abs n mod 2 ^ Z.max (JS.bits (Z.abs n) - 53) x = 0 ->
  Z.abs n < 2 ^ (2098 + x) ->
  exists k, n = k * 2 ^ x /\ JS.round x n = JS.Fin k.
Proof.
  intros Hx Hm Hlt. rewrite round_eq by exact Hx. cbv zeta.
  set (a := Z.abs n) in *. set (sh := Z.max (JS.bits a - 53) x) in *.
  assert (Hsh : x <= sh) by lia.
  pose proof (rne_exact a sh ltac:(lia) Hm) as Hr.
  set (q := JS.rne a sh) in *.
  assert (Hk : q * 2 ^ (sh - x) * 2 ^ x = a).
  { rewrite <- Z.mul_assoc, <- Z.pow_add_r by lia.
    replace (sh - x + x) with sh by lia. exact Hr. }
  set (k := q * 2 ^ (sh - x)) in *.
  pose proof (pow2_pos x Hx) as Hpx.
  assert (Hklt : k < 2 ^ 2098).
  { rewrite Z.pow_add_r in Hlt by lia.
    set (P := 2 ^ 2098) in *. nia. }
  destruct (Z.leb_spec (2 ^ 2098) k); [lia|].
  exists (Z.sgn n * k). split; [|reflexivity].
  rewrite <- Z.mul_assoc, Hk. unfold a. symmetry. rewrite Z.mul_comm. apply Z.abs_sgn.
Qed.

Lemma round_int x z :
  0 <= x -> Z.abs z < 2 ^ 53 -> JS.round x (z * JS.one * 2 ^ x) = JS.Fin (z * JS.one).
Proof.
  intros Hx Hz.
  pose proof (pow2_pos x Hx) as Hpx. pose proof one_pos as Hone.
  assert (Ha : Z.abs (z * JS.one * 2 ^ x) = Z.abs z * 2 ^ (1074 + x)).
  { rewrite !Z.abs_mul, (Z.abs_eq JS.one), (Z.abs_eq (2 ^ x)) by lia.
    unfold JS.one. rewrite Z.pow_add_r by lia. lia. }
  destruct (round_exact x (z * JS.one * 2 ^ x) Hx) as (k & Hk & ->).
  - rewrite Ha. apply mod_pow2_mul.
    assert (JS.bits (Z.abs z * 2 ^ (1074 + x)) <= 53 + (1074 + x)).
    { pose proof (pow2_pos (1074 + x)).
      apply bits_le; [nia | lia |].
      rewrite (Z.pow_add_r 2 53) by lia. nia. }
    set (b := JS.bits _) in *. lia.
  - rewrite Ha. replace (2098 + x) with (1024 + (1074 + x)) by lia.
    rewrite (Z.pow_add_r 2 1024) by lia.
    pose proof (pow2_pos (1074 + x)).
    assert (2 ^ 53 < 2 ^ 1024) by (apply Z.pow_lt_mono_r; lia). nia.
  - f_equal. nia.
Qed.

Lemma lit_small z : Z.abs z < 2 ^ 53 -> JS.lit z = JS.Fin (z * JS.one).
Proof.
  intros H. unfold JS.lit. rewrite <- (round_int 0 z) by lia.
  f_equal. simpl. lia.
Qed.

Lemma mul_int a b :
  Z.abs (a * b) < 2 ^ 53 ->
  JS.mul (JS.Fin (a * JS.one)) (JS.Fin (b * JS.one)) = JS.Fin (a * b * JS.one).
Proof.
  intros H. simpl. rewrite <- (round_int 1074 (a * b)) by lia.
  f_equal. unfold JS.one. ring.
Qed.

Lemma add_int a b :
  Z.abs (a + b) < 2 ^ 53 ->
  JS.add (JS.Fin (a * JS.one)) (JS.Fin (b * JS.one)) = JS.Fin ((a + b) * JS.one).
Proof.
  intros H. simpl. rewrite <- (round_int 0 (a + b)) by lia.
  f_equal. rewrite Z.pow_0_r. ring.
Qed.

Lemma rem_int a b :
  b <> 0 ->
  JS.rem (JS.Fin (a * JS.one)) (JS.Fin (b * JS.one)) = JS.Fin (Z.rem a b * JS.one).
Proof.
  intros Hb. pose proof one_pos. simpl.
  destruct (Z.eqb_spec (b * JS.one) 0); [nia|].
  f_equal. apply Z.mul_rem_distr_r; lia.
Qed.

Lemma floor_int a : JS.floor (JS.Fin (a * JS.one)) = JS.Fin (a * JS.one).
Proof. pose proof one_pos. simpl. rewrite Z.div_mul by lia. reflexivity. Qed.

Lemma index_int a : 0 <= a -> JS.index (JS.Fin (a * JS.one)) = Some (Z.to_nat a).
Proof.
  intros Ha. pose proof one_pos. simpl.
  rewrite Z.mod_mul, Z.div_mul by lia.
  destruct (Z.leb_spec 0 (a * JS.one)); [reflexivity | nia].
Qed.

Lemma truthy_int a : JS.truthy (JS.Fin (a * JS.one)) = negb (a =? 0).
Proof.
  pose proof one_pos. simpl. f_equal.
  destruct (Z.eqb_spec a 0), (Z.eqb_spec (a * JS.one) 0); try reflexivity; nia.
Qed.

Lemma pow53 : 2 ^ 53 = 9007199254740992.
Proof. reflexivity. Qed.

Lemma rne_bounds a sh :
  0 <= a -> 0 < sh ->
  a / 2 ^ sh <= JS.rne a sh <= a / 2 ^ sh + 1 /\
  JS.rne a sh * 2 ^ sh <= a + 2 ^ (sh - 1) /\
  a <= JS.rne a sh * 2 ^ sh + 2 ^ (sh - 1).
Proof.
  intros Ha Hsh. rewrite rne_eq.
  destruct (Z.leb_spec sh 0); [lia|].
  assert (Hp : 2 ^ sh = 2 * 2 ^ (sh - 1)).
  { rewrite <- Z.pow_succ_r by lia. f_equal. lia. }
  pose proof (pow2_pos (sh - 1) ltac:(lia)) as Hh.
  pose proof (Z.div_mod a (2 ^ sh) ltac:(lia)) as Hdm.
  pose proof (Z.mod_pos_bound a (2 ^ sh) ltac:(lia)) as Hmb.
  set (q := a / 2 ^ sh) in *. set (r := a mod 2 ^ sh) in *.
  set (h := 2 ^ (sh - 1)) in *. set (p := 2 ^ sh) in *.
  destruct (Z.ltb_spec r h); [nia|].
  destruct (Z.ltb_spec h r); [nia|].
  destruct (Z.even q); nia.
Qed.

Lemma rne_zero sh : JS.rne 0 sh = 0.
Proof.
  rewrite rne_eq. destruct (sh <=? 0); [reflexivity|].
  rewrite Zdiv_0_l, Zmod_0_l.
  destruct (Z.ltb_spec 0 (2 ^ (sh - 1))); [reflexivity|].
  destruct (Z.ltb_spec (2 ^ (sh - 1)) 0); [|reflexivity].
  pose proof (Z.pow_nonneg 2 (sh - 1)). lia.
Qed.

Lemma round_nonneg x n :
  0 <= x -> 0 <= n ->
  JS.round x n = (if 2 ^ 2098 <=? kept x n then JS.Inf false else JS.Fin (kept x n))
  /\ 0 <= kept x n /\ repr (kept x n).
Proof.
  intros Hx Hn. rewrite round_eq by exact Hx. unfold kept. cbv zeta.
  rewrite (Z.abs_eq n) by lia.
  set (sh := Z.max (JS.bits n - 53) x).
  destruct (Z.ltb_spec n 0); [lia|].
  assert (Hq : 0 <= JS.rne n sh <= 2 ^ 53).
  { destruct (Z.eq_dec n 0) as [->|Hn0]; [rewrite rne_zero, pow53; lia|].
    pose proof (bits_spec n ltac:(lia)) as Hb.
    destruct (Z.le_gt_cases sh 0) as [Hle|Hgt].
    - rewrite rne_eq. destruct (Z.leb_spec sh 0); [|lia].
      assert (JS.bits n <= 53) by lia.
      assert (2 ^ JS.bits n <= 2 ^ 53) by (apply Z.pow_le_mono_r; lia). lia.
    - destruct (rne_bounds n sh Hn Hgt) as ((Hlo & Hhi) & _).
      assert (0 <= n / 2 ^ sh) by (apply Z.div_pos; [lia | apply pow2_pos; lia]).
      assert (n / 2 ^ sh < 2 ^ 53); [|lia].
      apply Z.div_lt_upper_bound; [apply pow2_pos; lia|].
      rewrite <- Z.pow_add_r by lia.
      assert (2 ^ JS.bits n <= 2 ^ (sh + 53)) by (apply Z.pow_le_mono_r; lia). lia. }
  assert (Hs : Z.sgn n * (JS.rne n sh * 2 ^ (sh - x)) = JS.rne n sh * 2 ^ (sh - x)).
  { destruct (Z.eq_dec n 0) as [->|Hn0]; [rewrite rne_zero; simpl; lia|].
    rewrite Z.sgn_pos by lia. lia. }
  rewrite Hs. split; [reflexivity|].
  pose proof (pow2_pos (sh - x) ltac:(lia)).
  split; [nia|].
  destruct (Z.eq_dec (JS.rne n sh) (2 ^ 53)) as [He|Hne].
  - exists 1, (53 + (sh - x)). rewrite He, Z.pow_add_r by lia.
    split; [lia|]. split; [|lia]. rewrite pow53. lia.
  - exists (JS.rne n sh), (sh - x). split; [reflexivity|]. lia.
Qed.

Lemma kept_upper x n :
  0 <= x -> 0 <= n -> 0 < Z.max (JS.bits n - 53) x ->
  kept x n * 2 ^ x <= n + 2 ^ (Z.max (JS.bits n - 53) x - 1).
Proof.
  intros Hx Hn Hsh. unfold kept. set (sh := Z.max (JS.bits n - 53) x) in *.
  destruct (rne_bounds n sh Hn Hsh) as (_ & Hup & _).
  rewrite <- Z.mul_assoc, <- Z.pow_add_r by lia.
  replace (sh - x + x) with sh by lia. exact Hup.
Qed.

Lemma kept_lower x n :
  0 <= x -> 0 <= n ->
  n / 2 ^ Z.max (JS.bits n - 53) x * 2 ^ Z.max (JS.bits n - 53) x
  <= kept x n * 2 ^ x.
Proof.
  intros Hx Hn. unfold kept. set (sh := Z.max (JS.bits n - 53) x) in *.
  rewrite <- (Z.mul_assoc (JS.rne n sh)), <- Z.pow_add_r by lia.
  replace (sh - x + x) with sh by lia.
  pose proof (pow2_pos sh ltac:(lia)).
  destruct (Z.le_gt_cases sh 0) as [Hle|Hgt].
  - assert (sh = 0) by lia. rewrite rne_eq. destruct (Z.leb_spec sh 0); [|lia].
    replace sh with 0 by lia. rewrite Z.pow_0_r, Z.div_1_r. lia.
  - destruct (rne_bounds n sh Hn Hgt) as ((Hlo & _) & _). nia.
Qed.

Lemma double_divides j t :
  0 < j -> JS.is_double j -> 0 <= t <= JS.bits j - 53 -> (j mod 2 ^ t = 0).
Proof.
  intros Hj Hd Ht. unfold JS.is_double in Hd.
  destruct (round_nonneg 0 j ltac:(lia) ltac:(lia)) as (Hr & _ & _).
  rewrite Hr in Hd. destruct (2 ^ 2098 <=? kept 0 j); [discriminate|].
  injection Hd as Hk. rewrite <- Hk at 1. unfold kept.
  set (sh := Z.max (JS.bits j - 53) 0). rewrite Z.sub_0_r.
  apply mod_pow2_mul. lia.
Qed.

Lemma one_split : JS.one = 2 ^ 53 * 2 ^ 1021.
Proof. reflexivity. Qed.

Lemma unit_double_le j :
  0 <= j < JS.one -> JS.is_double j -> j <= (2 ^ 53 - 1) * 2 ^ 1021.
Proof.
  intros Hj Hd. rewrite one_split in Hj.
  assert (HE : 0 < 2 ^ 1021) by (apply pow2_pos; lia).
  set (E := 2 ^ 1021) in *. rewrite pow53 in *.
  destruct (Z.lt_ge_cases j (2 ^ 52 * E)) as [Hlt|Hge].
  - change (2 ^ 52) with 4503599627370496 in Hlt. lia.
  - assert (Hb : JS.bits j = 1074).
    { assert (0 < j) by (change (2 ^ 52) with 4503599627370496 in Hge; lia).
      pose proof (bits_spec j H) as Hs.
      assert (JS.bits j <= 1074).
      { apply bits_le; [lia | lia |].
        change (2 ^ 1074) with (9007199254740992 * 2 ^ 1021). fold E. lia. }
      assert (~ JS.bits j <= 1073); [|lia].
      intros Hle. assert (2 ^ JS.bits j <= 2 ^ 1073) by (apply Z.pow_le_mono_r; lia).
      change (2 ^ 1073) with (2 ^ 52 * 2 ^ 1021) in H1. fold E in H1. lia. }
    assert (Hm : j mod 2 ^ 1021 = 0).
    { apply double_divides; [|exact Hd | lia].
      change (2 ^ 52) with 4503599627370496 in Hge. lia. }
    fold E in Hm. apply Z.div_exact in Hm; [|lia].
    set (c := j / E) in *. nia.
Qed.

Lemma random_below N b j :
  1 <= b <= 50 -> 2 ^ (b - 1) < N < 2 ^ b ->
  0 <= j < JS.one -> JS.is_double j ->
  exists i, JS.floor (JS.mul (JS.Fin j) (JS.Fin (N * JS.one))) = JS.Fin (i * JS.one)
            /\ 0 <= i < N.
Proof.
  intros Hb HN Hj Hd.
  pose proof (unit_double_le j Hj Hd) as Hle.
  pose proof one_pos as Hone.
  assert (HA : 0 < 2 ^ (b - 1)) by (apply pow2_pos; lia).
  assert (HE : 0 < 2 ^ 1021) by (apply pow2_pos; lia).
  cbn [JS.mul]. set (P := j * (N * JS.one)).
  assert (HP : 0 <= P).
  { unfold P. apply Z.mul_nonneg_nonneg; [lia|]. apply Z.mul_nonneg_nonneg; lia. }
  destruct (round_nonneg 1074 P ltac:(lia) HP) as (Hr & Hk0 & _).
  set (sh := Z.max (JS.bits P - 53) 1074) in *.
  assert (Hsh : 0 < sh) by lia.
  pose proof (kept_upper 1074 P ltac:(lia) HP Hsh) as Hup. fold sh in Hup.
  assert (Hbits : JS.bits P <= b + 2148).
  { apply bits_le; [lia | lia |].
    replace (2 ^ (b + 2148)) with (JS.one * (2 ^ b * JS.one)).
    - unfold P. apply Z.mul_lt_mono_nonneg; [lia | lia | nia | nia].
    - unfold JS.one. rewrite <- !Z.pow_add_r by lia. f_equal. lia. }
  assert (Hh : 2 ^ (sh - 1) <= 2 ^ (b - 1) * 2 ^ 1021 * JS.one).
  { unfold JS.one. rewrite <- !Z.pow_add_r by lia. apply Z.pow_le_mono_r; lia. }
  fold JS.one in Hup.
  assert (Hk : kept 1074 P < N * JS.one).
  { set (k := kept 1074 P) in *. set (h := 2 ^ (sh - 1)) in *.
    clearbody k h. clear Hr Hbits Hsh. subst sh. unfold P in *. clear P.
    rewrite one_split in *. rewrite pow53 in *.
    set (E := 2 ^ 1021) in *. set (A := 2 ^ (b - 1)) in *.
    clearbody E A.
    assert (j * (N * (9007199254740992 * E))
            <= (9007199254740991 * E) * (N * (9007199254740992 * E))).
    { apply Z.mul_le_mono_nonneg_r; nia. }
    assert (k * (9007199254740992 * E)
            <= (9007199254740991 * E) * (N * (9007199254740992 * E))
               + A * E * (9007199254740992 * E)) by lia.
    assert (k <= 9007199254740991 * E * N + A * E) by nia.
    nia. }
  rewrite Hr.
  assert (2 ^ b <= 2 ^ 50) by (apply Z.pow_le_mono_r; lia).
  assert (2 ^ 50 * JS.one < 2 ^ 2098).
  { unfold JS.one. rewrite <- Z.pow_add_r by lia. apply Z.pow_lt_mono_r; lia. }
  destruct (Z.leb_spec (2 ^ 2098) (kept 1074 P)); [nia|].
  cbn [JS.floor]. exists (kept 1074 P / JS.one). split; [reflexivity|].
  split; [apply Z.div_pos; lia | apply Z.div_lt_upper_bound; lia].
Qed.

Lemma repr_mod k c :
  repr k -> 0 < c < 2 ^ 53 -> repr (k mod (c * 2 ^ 1076)).
Proof.
  intros (m & e & -> & Hm & He) Hc.
  assert (HB : 0 < 2 ^ 1076) by (apply pow2_pos; lia).
  destruct (Z.le_gt_cases e 1076) as [Hle|Hgt].
  - pose proof (pow2_pos e He) as Hpe.
    replace (2 ^ 1076) with (2 ^ (1076 - e) * 2 ^ e)
      by (rewrite <- Z.pow_add_r by lia; f_equal; lia).
    rewrite Z.mul_assoc, Z.mul_mod_distr_r by (pose proof (pow2_pos (1076 - e)); nia).
    exists (m mod (c * 2 ^ (1076 - e))), e. split; [reflexivity|]. split; [|lia].
    pose proof (pow2_pos (1076 - e) ltac:(lia)).
    pose proof (Z.mod_pos_bound m (c * 2 ^ (1076 - e)) ltac:(nia)).
    pose proof (Z.mod_le m (c * 2 ^ (1076 - e)) ltac:(lia) ltac:(nia)). lia.
  - replace (2 ^ e) with (2 ^ (e - 1076) * 2 ^ 1076)
      by (rewrite <- Z.pow_add_r by lia; f_equal; lia).
    rewrite Z.mul_assoc, Z.mul_mod_distr_r by lia.
    exists ((m * 2 ^ (e - 1076)) mod c), 1076. split; [reflexivity|]. split; [|lia].
    pose proof (Z.mod_pos_bound (m * 2 ^ (e - 1076)) c ltac:(lia)). lia.
Qed.

Lemma add_500 r :
  repr r -> 0 <= r < 149500 * JS.one ->
  exists s, JS.round 0 (r + 500 * JS.one) = JS.Fin s
            /\ 500 * JS.one <= s < 150000 * JS.one.
Proof.
  intros (m & e & Hr & Hm & He) Hrange.
  pose proof one_pos as Hone.
  set (n := r + 500 * JS.one).
  assert (Hn : 0 <= n) by (unfold n; lia).
  destruct (round_nonneg 0 n ltac:(lia) Hn) as (Hround & Hk0 & _).
  pose proof (bits_spec n ltac:(unfold n; lia)) as Hbits.
  assert (Hlo : 1083 <= JS.bits n).
  { destruct (Z.le_gt_cases 1083 (JS.bits n)) as [|Hc]; [assumption|].
    assert (2 ^ JS.bits n <= 2 ^ 1082) by (apply Z.pow_le_mono_r; lia).
    change (2 ^ 1082) with (256 * JS.one) in H. unfold n in *. lia. }
  assert (Hhi : JS.bits n <= 1092).
  { apply bits_le; [lia | lia |].
    change (2 ^ 1092) with (262144 * JS.one). unfold n. lia. }
  set (sh := Z.max (JS.bits n - 53) 0) in *.
  assert (Hsh : 1030 <= sh <= 1039) by lia.
  pose proof (pow2_pos sh ltac:(lia)) as Hpsh.
  assert (Hone_sh : JS.one = 2 ^ (1074 - sh) * 2 ^ sh).
  { unfold JS.one. rewrite <- Z.pow_add_r by lia. f_equal. lia. }
  pose proof (pow2_pos (1074 - sh) ltac:(lia)) as Hpd.
  pose proof (kept_lower 0 n ltac:(lia) Hn) as Hlow. fold sh in Hlow.
  rewrite Z.pow_0_r, Z.mul_1_r in Hlow.
  assert (Hge : 500 * JS.one <= kept 0 n).
  { assert (500 * 2 ^ (1074 - sh) <= n / 2 ^ sh).
    { apply Z.div_le_lower_bound; [lia|]. unfold n. rewrite Hone_sh in *. nia. }
    rewrite Hone_sh. nia. }
  assert (Hlt : kept 0 n < 150000 * JS.one).
  { destruct (Z.lt_ge_cases r (131072 * JS.one)) as [Hsmall|Hbig].
    - pose proof (kept_upper 0 n ltac:(lia) Hn ltac:(fold sh; lia)) as Hup.
      fold sh in Hup.
      rewrite Z.pow_0_r, Z.mul_1_r in Hup.
      assert (2 ^ (sh - 1) <= JS.one).
      { unfold JS.one. apply Z.pow_le_mono_r; lia. }
      unfold n in *. lia.
    - assert (Hesh : sh <= e).
      { assert (~ e <= 1038); [|lia]. intros He38.
        assert (2 ^ e <= 2 ^ 1038) by (apply Z.pow_le_mono_r; lia).
        change (131072 * JS.one) with (2 ^ 53 * 2 ^ 1038) in Hbig.
        pose proof (pow2_pos e He). nia. }
      assert (Hmod : n mod 2 ^ sh = 0).
      { unfold n. rewrite Hr.
        replace (2 ^ e) with (2 ^ (e - sh) * 2 ^ sh)
          by (rewrite <- Z.pow_add_r by lia; f_equal; lia).
        rewrite Hone_sh.
        replace (m * (2 ^ (e - sh) * 2 ^ sh) + 500 * (2 ^ (1074 - sh) * 2 ^ sh))
          with ((m * 2 ^ (e - sh) + 500 * 2 ^ (1074 - sh)) * 2 ^ sh) by ring.
        apply Z.mod_mul. lia. }
      pose proof (rne_exact n sh ltac:(lia) Hmod) as Hex.
      unfold kept. fold sh. rewrite Z.sub_0_r, Hex. unfold n. lia. }
  exists (kept 0 n). split; [|lia].
  rewrite Hround.
  assert (150000 * JS.one < 2 ^ 2098).
  { change (2 ^ 2098) with (2 ^ 1024 * JS.one).
    assert (150000 < 2 ^ 1024) by reflexivity. nia. }
  destruct (Z.leb_spec (2 ^ 2098) (kept 0 n)); [lia|reflexivity].
Qed.

Lemma price_of_range k :
  0 <= k -> JS.mul (JS.Fin k) (JS.lit 97) <> JS.Inf false ->
  exists z, price_of (JS.Fin k) = JS.lit z /\ 500 <= z < 150000.
Proof.
  intros Hk Hfin. unfold price_of in *. pose proof one_pos as Hone.
  rewrite !lit_small in * by (rewrite pow53; lia).
  cbn [JS.mul] in *.
  destruct (round_nonneg 1074 (k * (97 * JS.one)) ltac:(lia) ltac:(nia))
    as (Hr & Hk1 & Hrep).
  set (k1 := kept 1074 (k * (97 * JS.one))) in *. rewrite Hr in *.
  destruct (2 ^ 2098 <=? k1); [congruence|].
  cbn [JS.rem]. destruct (Z.eqb_spec (149500 * JS.one) 0); [lia|].
  rewrite Z.rem_mod_nonneg by lia.
  assert (Hb : 149500 * JS.one = 37375 * 2 ^ 1076).
  { change (2 ^ 1076) with (4 * JS.one). lia. }
  pose proof (Z.mod_pos_bound k1 (149500 * JS.one) ltac:(lia)) as Hmod.
  assert (Hrr : repr (k1 mod (149500 * JS.one))).
  { rewrite Hb. apply repr_mod; [exact Hrep | rewrite pow53; lia]. }
  destruct (add_500 _ Hrr Hmod) as (s & Hs & Hsr).
  cbn [JS.add]. rewrite Hs. cbn [JS.floor].
  exists (s / JS.one).
  assert (500 <= s / JS.one) by (apply Z.div_le_lower_bound; lia).
  assert (s / JS.one < 150000) by (apply Z.div_lt_upper_bound; lia).
  split; [|lia]. rewrite lit_small by (rewrite pow53; lia). reflexivity.
Qed.

(** ** The number model against [SpecFloat]

    On the samples, whose sums and products reach into the subnormals,
    underflow to zero and overflow, the model computes what the Standard
    Library's specification of IEEE-754 binary64 computes. *)

Example samples_are_doubles :
  forallb (fun k => same_num (JS.round 0 k) (JS.Fin k)) sample_doubles = true.
Proof. vm_compute. reflexivity. Qed.

Example samples_round_trip :
  forallb (fun k => same_num (of_spec_float (to_spec_float k)) (JS.Fin k))
          sample_doubles = true.
Proof. vm_compute. reflexivity. Qed.

Example mul_agrees : agree JS.mul (SFmul 53 1024) = true.
Proof. vm_compute. reflexivity. Qed.

Example add_agrees : agree JS.add (SFadd 53 1024) = true.
Proof. vm_compute. reflexivity. Qed.

Example sub_agrees : agree JS.sub (SFsub 53 1024) = true.
Proof. vm_compute. reflexivity. Qed.

Example le_agrees :
  forallb
    (fun ab =>
       Bool.eqb (JS.le (JS.Fin (fst ab)) (JS.Fin (snd ab)))
                (SFleb (to_spec_float (fst ab)) (to_spec_float (snd ab))))
    (list_prod sample_doubles sample_doubles) = true.
Proof. vm_compute. reflexivity. Qed.

(** A decimal literal [m * 10^-e] with [m] and [10^e] below [2^53] is the
    correctly rounded quotient of two doubles. *)
Example decimal_agrees :
  forallb
    (fun me =>
       same_num (Str.of_decimal (fst me) (- snd me))
                (of_spec_float
                   (SFdiv 53 1024 (to_spec_float (fst me * JS.one))
                                  (to_spec_float (10 ^ snd me * JS.one)))))
    [(1, 1); (3, 1); (7, 1); (435, 2); (725, 4); (15, 1); (1, 22);
     (9007199254740991, 20); (123456789123, 3); (5, 3)] = true.
Proof. vm_compute. reflexivity. Qed.

Example rounding_examples :
  JS.lit (2 ^ 53 + 1) = JS.lit (2 ^ 53)
  /\ JS.lit (2 ^ 53 + 3) = JS.lit (2 ^ 53 + 4)
  /\ JS.lit (2 ^ 1024) = JS.Inf false
  /\ JS.round 1 1 = JS.Fin 0
  /\ JS.round 1 3 = JS.Fin 2
  /\ JS.floor (JS.round 1 (-3 * JS.one)) = JS.lit (-2)
  /\ JS.rem (JS.lit (-97)) (JS.lit 149500) = JS.lit (-97)
  /\ JS.rem (JS.lit 5) (JS.lit 0) = JS.NaN.
Proof. vm_compute. repeat split; reflexivity. Qed.

Example StringToNumber_examples :
  Str.StringToNumber "" = JS.Fin 0
  /\ Str.StringToNumber "0" = JS.Fin 0
  /\ Str.StringToNumber "  12  " = JS.lit 12
  /\ Str.StringToNumber "-1" = JS.lit (-1)
  /\ Str.StringToNumber "1e3" = JS.lit 1000
  /\ Str.StringToNumber "0x1F" = JS.lit 31
  /\ Str.StringToNumber "10.5" = JS.round 1 (21 * JS.one)
  /\ Str.StringToNumber "0.1" = JS.Fin (3602879701896397 * 2 ^ 1019)
  /\ Str.StringToNumber "9007199254740993" = JS.lit (2 ^ 53)
  /\ Str.StringToNumber "1e400" = JS.Inf false
  /\ Str.StringToNumber "1e-400" = JS.Fin 0
  /\ Str.StringToNumber "-Infinity" = JS.Inf true
  /\ Str.StringToNumber "abc" = JS.NaN
  /\ Str.StringToNumber "12px" = JS.NaN
  /\ Str.StringToNumber "1 2" = JS.NaN
  /\ Str.StringToNumber "-0x10" = JS.NaN.
Proof. vm_compute. repeat split; reflexivity. Qed.

(** ** The two derived attributes *)

Lemma price_of_int z :
  0 <= z -> z * 97 < 2 ^ 53 ->
  price_of (JS.Fin (z * JS.one)) = JS.lit (z * 97 mod 149500 + 500).
Proof.
  intros Hz Hb. rewrite pow53 in Hb. unfold price_of.
  pose proof (Z.mod_pos_bound (z * 97) 149500 ltac:(lia)).
  rewrite !lit_small by (rewrite pow53; lia).
  rewrite mul_int by (rewrite pow53; lia).
  rewrite rem_int by lia.
  rewrite Z.rem_mod_nonneg by lia.
  rewrite add_int by (rewrite pow53; lia).
  apply floor_int.
Qed.

Lemma category_at_int z :
  0 <= z ->
  App.category_at (JS.rem (JS.Fin (z * JS.one)) (JS.lit 5))
  = nth_error App.categories (Z.to_nat (z mod 5)).
Proof.
  intros Hz. unfold App.category_at.
  pose proof (Z.mod_pos_bound z 5 ltac:(lia)).
  rewrite lit_small by (rewrite pow53; lia).
  rewrite rem_int by lia. rewrite Z.rem_mod_nonneg by lia.
  rewrite index_int by lia. reflexivity.
Qed.

Lemma augment_unfold photo g :
  App.augment photo g =
  (let n := App.Number (App.id photo) in
   let ig := if JS.truthy n then (n, g)
             else (JS.floor (JS.mul (g 0%nat) (JS.lit 1000)), fun n => g (S n)) in
   ({| App.photo := photo;
       App.category := App.category_at (JS.rem (fst ig) (JS.lit 5));
       App.price := price_of (fst ig) |}, snd ig)).
Proof.
  unfold App.augment, App.Math_random, price_of. cbv zeta.
  destruct (JS.truthy (App.Number (App.id photo))); reflexivity.
Qed.

Lemma details_augment_unfold photo g :
  App.details_augment photo g =
  (let n := App.Number (App.id photo) in
   let ig := if JS.truthy n then (n, g)
             else (JS.floor (JS.mul (g 0%nat) (JS.lit 10000)), fun n => g (S n)) in
   ({| App.photo := photo;
       App.category := App.category_at (JS.rem (fst ig) (JS.lit 5));
       App.price := price_of (fst ig) |}, snd ig)).
Proof.
  unfold App.details_augment, App.Math_random, App.category_at, price_of. cbv zeta.
  destruct (JS.truthy (App.Number (App.id photo))); reflexivity.
Qed.

Lemma unit_sample_draw N b u :
  1 <= b <= 50 -> 2 ^ (b - 1) < N < 2 ^ b -> Spec.unit_sample u ->
  exists i, JS.floor (JS.mul u (JS.lit N)) = JS.Fin (i * JS.one) /\ 0 <= i < N.
Proof.
  intros Hb HN (j & -> & Hj & Hd).
  assert (2 ^ b <= 2 ^ 50) by (apply Z.pow_le_mono_r; lia).
  assert (0 < 2 ^ (b - 1)) by (apply pow2_pos; lia).
  rewrite lit_small by (change (2 ^ 50) with 1125899906842624 in *; rewrite pow53; lia).
  apply (random_below N b j Hb HN Hj Hd).
Qed.

(** ** The comparators of the pipeline *)

Lemma round0_sign n :
  match JS.round 0 n with
  | JS.NaN => False
  | JS.Inf s => s = (n <? 0) /\ n <> 0
  | JS.Fin k => Z.sgn k = Z.sgn n
  end.
Proof.
  rewrite round_eq by lia. cbv zeta. set (a := Z.abs n).
  set (sh := Z.max (JS.bits a - 53) 0). rewrite Z.sub_0_r.
  assert (Ha : 0 <= a) by (unfold a; lia).
  pose proof (kept_lower 0 a ltac:(lia) Ha) as Hlow.
  unfold kept in Hlow. fold sh in Hlow.
  rewrite Z.sub_0_r, Z.pow_0_r, Z.mul_1_r in Hlow.
  pose proof (pow2_pos sh ltac:(lia)) as Hp.
  destruct (Z.eq_dec n 0) as [->|Hn].
  - change (Z.abs 0) with 0 in a. subst a. rewrite rne_zero in *.
    destruct (Z.leb_spec (2 ^ 2098) (0 * 2 ^ sh)); [|reflexivity].
    pose proof (pow2_pos 2098). lia.
  - assert (Hk : 0 < JS.rne a sh * 2 ^ sh).
    { pose proof (bits_spec a ltac:(unfold a; lia)) as Hb.
      assert (2 ^ sh <= 2 ^ (JS.bits a - 1)).
      { apply Z.pow_le_mono_r; [lia|]. pose proof (bits_nonneg a).
        assert (JS.bits a <> 0); [|lia].
        intros H0. rewrite H0 in Hb. simpl in Hb. lia. }
      assert (1 <= a / 2 ^ sh) by (apply Z.div_le_lower_bound; lia).
      nia. }
    destruct (Z.leb_spec (2 ^ 2098) (JS.rne a sh * 2 ^ sh)); [split; [reflexivity | exact Hn]|].
    rewrite Z.sgn_mul, (Z.sgn_pos (JS.rne a sh * 2 ^ sh)) by lia.
    rewrite Z.mul_1_r, Z.sgn_sgn. reflexivity.
Qed.

Lemma not_after_asc a b :
  App.price a <> JS.NaN -> App.price b <> JS.NaN ->
  App.not_after App.asc a b = JS.le (App.price a) (App.price b).
Proof.
  unfold App.not_after, App.SortCompare, App.asc, JS.sub.
  destruct (App.price a) as [|s|j], (App.price b) as [|t|k]; try congruence;
    intros _ _; cbn [JS.opp JS.add JS.le].
  - destruct s, t; reflexivity.
  - destruct s; reflexivity.
  - destruct t; reflexivity.
  - pose proof (round0_sign (j + - k)) as Hs.
    destruct (JS.round 0 (j + - k)) as [|s|r]; [contradiction| |].
    + destruct Hs as (-> & Hn). cbn [JS.le].
      destruct (Z.ltb_spec (j + - k) 0), (Z.leb_spec j k); try reflexivity; lia.
    + cbn [JS.le]. destruct (Z.leb_spec r 0), (Z.leb_spec j k); try reflexivity; lia.
Qed.

Lemma not_after_desc a b :
  App.price a <> JS.NaN -> App.price b <> JS.NaN ->
  App.not_after App.desc a b = JS.le (App.price b) (App.price a).
Proof.
  intros Ha Hb. rewrite <- (not_after_asc b a Hb Ha). reflexivity.
Qed.

Lemma not_after_asc_NaN a b :
  App.price a = JS.NaN \/ App.price b = JS.NaN -> App.not_after App.asc a b = true.
Proof.
  unfold App.not_after, App.SortCompare, App.asc, JS.sub.
  intros [H|H]; rewrite H; [reflexivity|].
  destruct (App.price a) as [|s|j]; reflexivity.
Qed.

Lemma le_total x y : x <> JS.NaN -> y <> JS.NaN -> JS.le x y = false -> JS.le y x = true.
Proof.
  destruct x as [|s|j], y as [|t|k]; try congruence; intros _ _; cbn [JS.le].
  - destruct s, t; simpl; congruence.
  - destruct s; simpl; congruence.
  - destruct t; simpl; congruence.
  - intros H. apply Z.leb_gt in H. apply Z.leb_le. lia.
Qed.

Lemma le_trans x y z : JS.le x y = true -> JS.le y z = true -> JS.le x z = true.
Proof.
  destruct x as [|s|j], y as [|t|k], z as [|u|l]; cbn [JS.le]; intros H1 H2;
    try discriminate; try reflexivity;
    repeat match goal with b : bool |- _ => destruct b end;
    simpl in *; try congruence.
  apply Z.leb_le in H1, H2. apply Z.leb_le. lia.
Qed.

Lemma le_refl x : x <> JS.NaN -> JS.le x x = true.
Proof.
  destruct x as [|s|j]; [congruence | destruct s; reflexivity |].
  intros _. apply Z.leb_refl.
Qed.

Lemma asc_total a b :
  App.not_after App.asc a b = false -> App.not_after App.asc b a = true.
Proof.
  intros H.
  destruct (App.price a) as [|s|j] eqn:Ha.
  { rewrite not_after_asc_NaN in H by (left; exact Ha). discriminate. }
  all: destruct (App.price b) as [|t|k] eqn:Hb;
    try (rewrite not_after_asc_NaN in H by (right; exact Hb); discriminate).
  all: rewrite not_after_asc in * by congruence; apply le_total; congruence.
Qed.

Lemma desc_total a b :
  App.not_after App.desc a b = false -> App.not_after App.desc b a = true.
Proof. apply (asc_total b a). Qed.

Lemma asc_same_price v a b :
  Spec.has_price v a = true -> Spec.has_price v b = true ->
  App.not_after App.asc a b = true.
Proof.
  unfold Spec.has_price. intros Ha Hb.
  destruct (App.price a) as [|s|j] eqn:Ea.
  { apply not_after_asc_NaN. left. exact Ea. }
  all: destruct (App.price b) as [|t|k] eqn:Eb;
    try (apply not_after_asc_NaN; right; exact Eb).
  all: rewrite not_after_asc by congruence; rewrite Ea, Eb.
  all: destruct v as [|u|l]; try discriminate; cbn [JS.le].
  - apply eqb_prop in Ha, Hb. subst. destruct u; reflexivity.
  - apply Z.eqb_eq in Ha, Hb. apply Z.leb_le. lia.
Qed.

Lemma desc_same_price v a b :
  Spec.has_price v a = true -> Spec.has_price v b = true ->
  App.not_after App.desc a b = true.
Proof. intros Ha Hb. apply (asc_same_price v b a Hb Ha). Qed.

(** ** The stable sort *)

Section SortFacts.
Context {A : Type} (cmp : A -> A -> JS.num).
Local Abbreviation leb := (App.not_after cmp).

Lemma insert_perm x l : Permutation (App.insert cmp x l) (x :: l).
Proof.
  induction l as [|y r IH]; simpl; [reflexivity|].
  destruct (leb x y); [reflexivity|].
  rewrite IH. apply perm_swap.
Qed.

Lemma Array_sort_perm l : Permutation (App.Array_sort cmp l) l.
Proof.
  induction l as [|x r IH]; simpl; [reflexivity|].
  rewrite insert_perm. constructor. exact IH.
Qed.

Lemma insert_filter (P : A -> bool) x l :
  (forall y, P x = true -> P y = true -> leb x y = true) ->
  List.filter P (App.insert cmp x l) = List.filter P (x :: l).
Proof.
  intros Heq. induction l as [|y r IH]; [reflexivity|].
  cbn [App.insert]. destruct (leb x y) eqn:Hxy; [reflexivity|].
  cbn [List.filter] in *. rewrite IH.
  destruct (P x) eqn:Hx, (P y) eqn:Hy; try reflexivity.
  rewrite Heq in Hxy by (reflexivity || assumption). discriminate.
Qed.

Lemma Array_sort_filter (P : A -> bool) l :
  (forall x y, P x = true -> P y = true -> leb x y = true) ->
  List.filter P (App.Array_sort cmp l) = List.filter P l.
Proof.
  intros Heq. induction l as [|x r IH]; [reflexivity|].
  cbn [App.Array_sort fold_right]. fold (App.Array_sort cmp r).
  rewrite insert_filter by (intros; apply Heq; assumption).
  cbn [List.filter]. rewrite IH. reflexivity.
Qed.

Lemma insert_sorted x l :
  (forall y, leb x y = false -> leb y x = true) ->
  Sorted (fun a b => leb a b = true) l ->
  Sorted (fun a b => leb a b = true) (App.insert cmp x l).
Proof.
  intros Htot Hs. induction Hs as [|y r Hr IH Hhd]; cbn [App.insert].
  - repeat constructor.
  - destruct (leb x y) eqn:Hxy.
    + constructor; [constructor; assumption | constructor; assumption].
    + constructor; [exact IH|].
      destruct r as [|z r']; cbn [App.insert].
      * constructor. apply Htot. exact Hxy.
      * destruct (leb x z); constructor.
        -- apply Htot. exact Hxy.
        -- inversion Hhd; assumption.
Qed.

Lemma Array_sort_sorted l :
  (forall x y, leb x y = false -> leb y x = true) ->
  Sorted (fun a b => leb a b = true) (App.Array_sort cmp l).
Proof.
  intros Htot. induction l as [|x r IH]; cbn; [constructor|].
  apply insert_sorted; [intros; apply Htot; assumption | exact IH].
Qed.

Lemma Array_sort_id l :
  Sorted (fun a b => leb a b = true) l -> App.Array_sort cmp l = l.
Proof.
  induction 1 as [|x r Hr IH Hhd]; [reflexivity|].
  cbn [App.Array_sort fold_right]. fold (App.Array_sort cmp r). rewrite IH.
  destruct Hhd as [|y r' Hxy]; cbn [App.insert]; [reflexivity|].
  rewrite Hxy. reflexivity.
Qed.

Lemma Array_sort_idem l :
  (forall x y, leb x y = false -> leb y x = true) ->
  App.Array_sort cmp (App.Array_sort cmp l) = App.Array_sort cmp l.
Proof. intros Htot. apply Array_sort_id, Array_sort_sorted, Htot. Qed.

(** With a comparator that decides a transitive order [R] on the elements
    that satisfy [ok], the result is ordered pairwise. *)
Context (R : A -> A -> Prop) (ok : A -> Prop).
Hypothesis R_trans : forall x y z, R x y -> R y z -> R x z.
Hypothesis leb_R : forall x y, ok x -> ok y -> leb x y = true -> R x y.
Hypothesis leb_total : forall x y, ok x -> ok y -> leb x y = false -> R y x.

Lemma insert_strongly x l :
  ok x -> Forall ok l -> StronglySorted R l -> StronglySorted R (App.insert cmp x l).
Proof.
  intros Hx Hok Hs. induction Hs as [|y r Hr IH Hall]; cbn [App.insert].
  - repeat constructor.
  - inversion Hok as [|? ? Hy Hokr]; subst.
    destruct (leb x y) eqn:Hxy.
    + constructor; [constructor; assumption|].
      constructor; [apply leb_R; assumption|].
      eapply List.Forall_impl; [|exact Hall].
      intros z Hyz. eapply R_trans; [apply leb_R; eassumption | exact Hyz].
    + constructor; [apply IH; assumption|].
      rewrite (insert_perm x r). constructor; [apply leb_total; assumption | exact Hall].
Qed.

Lemma Array_sort_strongly l :
  Forall ok l -> StronglySorted R (App.Array_sort cmp l).
Proof.
  induction 1 as [|x r Hx Hr IH]; cbn; [constructor|].
  apply insert_strongly; [exact Hx | | exact IH].
  fold (App.Array_sort cmp r). rewrite Array_sort_perm. exact Hr.
Qed.
End SortFacts.

Lemma StronglySorted_nth {A} (R : A -> A -> Prop) l :
  StronglySorted R l ->
  forall i j a b, (i < j)%nat -> nth_error l i = Some a -> nth_error l j = Some b -> R a b.
Proof.
  induction 1 as [|x r Hr IH Hall]; intros i j a b Hij Ha Hb.
  - destruct i; discriminate.
  - destruct j as [|j]; [lia|]. cbn in Hb.
    destruct i as [|i]; cbn in Ha.
    + injection Ha as <-. rewrite List.Forall_forall in Hall.
      apply Hall. eapply nth_error_In. exact Hb.
    + apply (IH i j); [lia | assumption | assumption].
Qed.

(** ** The shape of the pipeline *)

Lemma filter_filter_and {A} (P Q : A -> bool) l :
  List.filter Q (List.filter P l) = List.filter (fun x => P x && Q x) l.
Proof.
  induction l as [|x r IH]; [reflexivity|]. cbn [List.filter].
  destruct (P x); cbn [List.filter andb]; rewrite IH; reflexivity.
Qed.

Lemma filter_all {A} (P : A -> bool) l :
  (forall x, In x l -> P x = true) -> List.filter P l = l.
Proof.
  induction l as [|x r IH]; intros H; [reflexivity|]. cbn [List.filter].
  rewrite (H x) by (left; reflexivity). f_equal. apply IH.
  intros y Hy. apply H. right. exact Hy.
Qed.

Lemma filter_stage items f :
  List.filter (App.by_price f)
    ((if Str.truthy (App.Filters.category f)
      then List.filter (App.by_category f) else fun l => l)
       ((if Str.truthy (App.Filters.search f)
         then List.filter (App.by_search f) else fun l => l) items))
  = List.filter (Spec.keeps f) items.
Proof.
  unfold Spec.keeps.
  destruct (Str.truthy (App.Filters.search f)), (Str.truthy (App.Filters.category f));
    cbn [negb orb]; rewrite ?filter_filter_and; apply List.filter_ext; intros p;
    destruct (App.by_search f p), (App.by_category f p), (App.by_price f p);
    reflexivity.
Qed.

Lemma filtered_eq items f :
  App.filtered items f = sort_stage f (List.filter (Spec.keeps f) items).
Proof.
  rewrite <- filter_stage. unfold App.filtered, sort_stage. cbv zeta.
  destruct (Str.truthy (App.Filters.search f)), (Str.truthy (App.Filters.category f));
    reflexivity.
Qed.

Lemma sort_stage_cases f l :
  (App.Filters.sort f = "asc"%string /\ sort_stage f l = App.Array_sort App.asc l)
  \/ (App.Filters.sort f = "desc"%string /\ sort_stage f l = App.Array_sort App.desc l)
  \/ (App.Filters.sort f <> "asc"%string /\ App.Filters.sort f <> "desc"%string
      /\ sort_stage f l = l).
Proof.
  unfold sort_stage.
  destruct (String.eqb_spec (App.Filters.sort f) "asc") as [Ha|Ha].
  - left. rewrite Ha. split; reflexivity.
  - destruct (String.eqb_spec (App.Filters.sort f) "desc") as [Hd|Hd].
    + right; left. split; [exact Hd | reflexivity].
    + right; right. repeat split; assumption.
Qed.

Lemma sort_stage_perm f l : Permutation (sort_stage f l) l.
Proof.
  destruct (sort_stage_cases f l) as [(_ & ->)|[(_ & ->)|(_ & _ & ->)]];
    [apply Array_sort_perm | apply Array_sort_perm | reflexivity].
Qed.

Lemma sort_stage_idem f l : sort_stage f (sort_stage f l) = sort_stage f l.
Proof.
  destruct (sort_stage_cases f l) as [(Hs & E)|[(Hs & E)|(Ha & Hd & E)]].
  - rewrite E. destruct (sort_stage_cases f (App.Array_sort App.asc l))
      as [(_ & ->)|[(Hs' & _)|(Ha & _)]]; [|congruence|congruence].
    apply Array_sort_idem. apply asc_total.
  - rewrite E. destruct (sort_stage_cases f (App.Array_sort App.desc l))
      as [(Hs' & _)|[(_ & ->)|(_ & Hd & _)]]; [congruence| |congruence].
    apply Array_sort_idem. apply desc_total.
  - rewrite E. exact E.
Qed.

Lemma kept_by_filter f items p :
  In p (App.filtered items f) -> In p items /\ Spec.keeps f p = true.
Proof.
  rewrite filtered_eq. intros H.
  apply (Permutation_in _ (sort_stage_perm f _)) in H.
  apply List.filter_In in H. exact H.
Qed.

Lemma by_price_priced f p : App.by_price f p = true -> App.price p <> JS.NaN.
Proof.
  unfold App.by_price, JS.ge. intros H Hn. rewrite Hn in H.
  destruct (App.minP f); discriminate.
Qed.

Lemma keeps_priced f items : priced (List.filter (Spec.keeps f) items).
Proof.
  apply List.Forall_forall. intros p Hp. apply List.filter_In in Hp as (_ & Hk).
  unfold Spec.keeps in Hk. apply andb_prop in Hk as (_ & Hk).
  apply (by_price_priced f p Hk).
Qed.

Lemma or_else_effective d s :
  JS.or_else (Str.StringToNumber s) d = Spec.effective_bound d s.
Proof.
  unfold JS.or_else, Spec.effective_bound.
  destruct (Str.StringToNumber s) as [|b|k]; [reflexivity | reflexivity |].
  destruct k; reflexivity.
Qed.

Lemma truthy_nonempty s : Str.truthy s = true <-> s <> EmptyString.
Proof. destruct s; simpl; split; congruence. Qed.

(** The pipeline reads its filter through the search text, the category,
    the two bounds as numbers and the sort key only. *)
Lemma filtered_ext items f f' :
  App.Filters.search f = App.Filters.search f' ->
  App.Filters.category f = App.Filters.category f' ->
  App.minP f = App.minP f' -> App.maxP f = App.maxP f' ->
  App.Filters.sort f = App.Filters.sort f' ->
  App.filtered items f = App.filtered items f'.
Proof.
  intros Hs Hc Hmin Hmax Hso. rewrite !filtered_eq.
  assert (E : List.filter (Spec.keeps f) items = List.filter (Spec.keeps f') items).
  { apply List.filter_ext. intros p.
    unfold Spec.keeps, App.by_search, App.by_category, App.by_price.
    rewrite Hs, Hc, Hmin, Hmax. reflexivity. }
  unfold sort_stage. rewrite E, Hso. reflexivity.
Qed.

(** ** The pipeline over the store *)

Lemma alloc_carries (h0 h : App.store) l :
  (forall a, a ∈ dom h0 -> h !! a = h0 !! a) ->
  carries h0 (fst (App.alloc h l)) (snd (App.alloc h l)) l.
Proof.
  intros Hsame. unfold App.alloc. cbn [fst snd].
  set (a := fresh (dom h)).
  assert (Hfresh : a ∉ dom h) by apply is_fresh.
  assert (Hsub : a ∉ dom h0).
  { intros Hin. apply Hfresh. apply elem_of_dom.
    rewrite (Hsame a Hin). apply elem_of_dom. exact Hin. }
  split; [apply lookup_insert_eq|]. split; [exact Hsub|].
  intros b Hb. rewrite lookup_insert_ne; [apply Hsame; exact Hb|].
  intros ->. contradiction.
Qed.

Lemma slice_carries (h0 : App.store) items l :
  h0 !! items = Some l ->
  exists h out, App.Array_slice h0 items = Some (h, out) /\ carries h0 h out l.
Proof.
  intros Hl. unfold App.Array_slice. rewrite Hl. cbn.
  eexists _, _. split; [reflexivity|].
  apply (alloc_carries h0 h0 l). reflexivity.
Qed.

Lemma filter_carries keep (h0 h : App.store) out v :
  carries h0 h out v ->
  exists h' out', App.Array_filter keep h out = Some (h', out')
                  /\ carries h0 h' out' (List.filter keep v).
Proof.
  intros (Hv & _ & Hsame). unfold App.Array_filter. rewrite Hv. cbn.
  eexists _, _. split; [reflexivity|].
  apply (alloc_carries h0 h (List.filter keep v)). exact Hsame.
Qed.

Lemma sort_carries cmp (h0 h : App.store) out v :
  carries h0 h out v ->
  exists h', App.Array_sort_at cmp h out = Some (h', out)
             /\ carries h0 h' out (App.Array_sort cmp v).
Proof.
  intros (Hv & Hnew & Hsame). unfold App.Array_sort_at. rewrite Hv. cbn.
  eexists. split; [reflexivity|].
  split; [apply lookup_insert_eq|]. split; [exact Hnew|].
  intros b Hb. rewrite lookup_insert_ne; [apply Hsame; exact Hb|].
  intros ->. contradiction.
Qed.

Lemma filtered_at_carries (h0 : App.store) items l f :
  h0 !! items = Some l ->
  exists h out, App.filtered_at h0 items f = Some (h, out)
                /\ carries h0 h out (App.filtered l f).
Proof.
  intros Hl. unfold App.filtered_at, App.filtered. cbv zeta.
  destruct (slice_carries h0 items l Hl) as (h1 & o1 & -> & C1). cbn.
  assert (S2 : exists h2 o2,
    (if Str.truthy (App.Filters.search f)
     then App.Array_filter (App.by_search f) h1 o1 else Some (h1, o1)) = Some (h2, o2)
    /\ carries h0 h2 o2
         (if Str.truthy (App.Filters.search f)
          then List.filter (App.by_search f) l else l)).
  { destruct (Str.truthy (App.Filters.search f));
      [apply filter_carries; exact C1 | eexists _, _; split; [reflexivity | exact C1]]. }
  destruct S2 as (h2 & o2 & -> & C2). cbn.
  set (l2 := if Str.truthy (App.Filters.search f) then _ else _) in *.
  assert (S3 : exists h3 o3,
    (if Str.truthy (App.Filters.category f)
     then App.Array_filter (App.by_category f) h2 o2 else Some (h2, o2)) = Some (h3, o3)
    /\ carries h0 h3 o3
         (if Str.truthy (App.Filters.category f)
          then List.filter (App.by_category f) l2 else l2)).
  { destruct (Str.truthy (App.Filters.category f));
      [apply filter_carries; exact C2 | eexists _, _; split; [reflexivity | exact C2]]. }
  destruct S3 as (h3 & o3 & -> & C3). cbn.
  set (l3 := if Str.truthy (App.Filters.category f) then _ else _) in *.
  destruct (filter_carries (App.by_price f) h0 h3 o3 l3 C3) as (h4 & o4 & -> & C4). cbn.
  set (l4 := List.filter (App.by_price f) l3) in *.
  assert (S5 : exists h5 o5,
    (if String.eqb (App.Filters.sort f) "asc"
     then App.Array_sort_at App.asc h4 o4 else Some (h4, o4)) = Some (h5, o5)
    /\ carries h0 h5 o5
         (if String.eqb (App.Filters.sort f) "asc"
          then App.Array_sort App.asc l4 else l4)).
  { destruct (String.eqb (App.Filters.sort f) "asc").
    - destruct (sort_carries App.asc h0 h4 o4 l4 C4) as (h5 & E & C5).
      eexists _, _. split; [exact E | exact C5].
    - eexists _, _. split; [reflexivity | exact C4]. }
  destruct S5 as (h5 & o5 & -> & C5). cbn.
  set (l5 := if String.eqb (App.Filters.sort f) "asc" then _ else _) in *.
  destruct (String.eqb (App.Filters.sort f) "desc").
  - destruct (sort_carries App.desc h0 h5 o5 l5 C5) as (h6 & -> & C6). cbn.
    eexists _, _. split; [reflexivity | exact C6].
  - cbn. eexists _, _. split; [reflexivity | exact C5].
Qed.

(** ** The catalog load *)

Lemma load_rejects w r :
  App.no_token (App.getToken w) = false -> Spec.rejects r = true ->
  App.load_try (App.setLoading true w) r = App.Thrown (App.setLoading true w).
Proof.
  intros Htok Hrej. unfold App.load_try. cbn [App.getToken App.setLoading App.token].
  unfold App.getToken in Htok. rewrite Htok.
  destruct r as [|ok [data|]]; [reflexivity | | reflexivity].
  cbn [Spec.rejects] in Hrej.
  destruct (App.unwrap data); try reflexivity. discriminate.
Qed.

Lemma load_no_token w r :
  App.no_token (App.getToken w) = true ->
  App.load w r = App.setLoading false (App.navigate "/login" (App.setLoading true w)).
Proof.
  intros Htok. unfold App.load, App.load_try. cbn [App.getToken App.setLoading App.token].
  unfold App.getToken in Htok. rewrite Htok. reflexivity.
Qed.

(** ** Integer literals *)

Lemma lit_inj a b :
  Z.abs a < 2 ^ 53 -> Z.abs b < 2 ^ 53 -> JS.lit a = JS.lit b -> a = b.
Proof.
  intros Ha Hb H. rewrite !lit_small in H by assumption.
  injection H as H. pose proof one_pos. nia.
Qed.

Lemma lit_in_range z : 500 <= z < 150000 -> Spec.in_range (JS.lit z).
Proof.
  intros Hz. pose proof one_pos. unfold Spec.in_range, Spec.lt.
  rewrite !lit_small by (rewrite pow53; lia). cbn [JS.le].
  destruct (Z.leb_spec (500 * JS.one) (z * JS.one)); [|nia].
  destruct (Z.leb_spec (z * JS.one) (150000 * JS.one)); [|nia].
  destruct (Z.leb_spec (150000 * JS.one) (z * JS.one)); [nia|].
  split; reflexivity.
Qed.

Lemma lit_below_range z : 0 <= z < 500 -> ~ Spec.in_range (JS.lit z).
Proof.
  intros Hz (H & _). pose proof one_pos.
  rewrite !lit_small in H by (rewrite pow53; lia). cbn [JS.le] in H.
  apply Z.leb_le in H. nia.
Qed.

Lemma NaN_not_in_range : ~ Spec.in_range JS.NaN.
Proof. intros (H & _). destruct (JS.lit 500); discriminate. Qed.

Lemma kept_is_shown items f p :
  In p items -> Spec.keeps f p = true -> In p (App.filtered items f).
Proof.
  intros Hi K. rewrite filtered_eq.
  apply (Permutation_in p (Permutation_sym (sort_stage_perm f _))).
  apply filter_In. split; assumption.
Qed.

Lemma keeps_ext f f' p :
  App.Filters.search f = App.Filters.search f' ->
  App.Filters.category f = App.Filters.category f' ->
  App.minP f = App.minP f' -> App.maxP f = App.maxP f' ->
  Spec.keeps f p = Spec.keeps f' p.
Proof.
  intros Hs Hc Hlo Hhi.
  unfold Spec.keeps, App.by_search, App.by_category, App.by_price.
  now rewrite Hs, Hc, Hlo, Hhi.
Qed.

(** * The claims *)

(** Splits the conjunctions of a goal, and nothing else. *)
Ltac conjuncts := repeat match goal with |- _ /\ _ => split end.

(** ** C6: the two worked examples *)

(** Claim C6.  [augment] applied to an item with id 1 yields category
    "Laptop" and price 597, and applied to an item with id 10 yields category
    "Mobile" and price 1470; the id may be the number or its decimal text,
    whatever the other fields of the item and the state of the generator. *)
Theorem augment_examples (t u th : string) (g : App.rng) :
  let photo i := {| App.id := i; App.title := t; App.url := u; App.thumbnailUrl := th |} in
  let out i := fst (App.augment (photo i) g) in
  (App.category (out (App.PNum (JS.lit 1))) = Some "Laptop"%string
   /\ App.price (out (App.PNum (JS.lit 1))) = JS.lit 597)
  /\ (App.category (out (App.PStr "1")) = Some "Laptop"%string
      /\ App.price (out (App.PStr "1")) = JS.lit 597)
  /\ (App.category (out (App.PNum (JS.lit 10))) = Some "Mobile"%string
      /\ App.price (out (App.PNum (JS.lit 10))) = JS.lit 1470)
  /\ (App.category (out (App.PStr "10")) = Some "Mobile"%string
      /\ App.price (out (App.PStr "10")) = JS.lit 1470).
Proof.
  cbv beta zeta. conjuncts; vm_compute; reflexivity.
Qed.

(** ** C2: the derivation formula *)

(** Claim C2, counterexample.  The formula of the claim fails on three numeric
    ids.  At id 0 the fallback is taken: with a generator returning [2^-9]
    the item gets the attributes of id 1 ("Laptop", 597) instead of
    ("Mobile", 500), and a generator returning 0.5 gives another item.  At
    id -1 the item has no category and the price 403.  At id [2^53 - 1] the
    product [id * 97] is rounded and the price is 78096, not 78127. *)
Lemma augment_formula_fails :
  (App.Number (App.id Ex.zero) = JS.lit 0
   /\ fst (App.augment Ex.zero Ex.low) = Spec.derived 1 Ex.zero
   /\ App.price (fst (App.augment Ex.zero Ex.low)) <> App.price (Spec.derived 0 Ex.zero)
   /\ App.price (fst (App.augment Ex.zero Ex.low))
      <> App.price (fst (App.augment Ex.zero Ex.half)))
  /\ (App.Number (App.id Ex.minus_one) = JS.lit (-1)
      /\ App.category (fst (App.augment Ex.minus_one Ex.half)) = None
      /\ App.price (fst (App.augment Ex.minus_one Ex.half)) = JS.lit 403
      /\ App.price (fst (App.augment Ex.minus_one Ex.half))
         <> App.price (Spec.derived (-1) Ex.minus_one))
  /\ (App.Number (App.id Ex.largest) = JS.lit (2 ^ 53 - 1)
      /\ App.price (fst (App.augment Ex.largest Ex.half)) = JS.lit 78096
      /\ App.price (Spec.derived (2 ^ 53 - 1) Ex.largest) = JS.lit 78127
      /\ App.price (fst (App.augment Ex.largest Ex.half))
         <> App.price (Spec.derived (2 ^ 53 - 1) Ex.largest)).
Proof.
  assert (E0 : App.price (fst (App.augment Ex.zero Ex.low)) = JS.lit 597)
    by (vm_compute; reflexivity).
  assert (E1 : App.price (fst (App.augment Ex.zero Ex.half)) = JS.lit 49000)
    by (vm_compute; reflexivity).
  assert (E2 : App.price (fst (App.augment Ex.minus_one Ex.half)) = JS.lit 403)
    by (vm_compute; reflexivity).
  assert (E3 : App.price (fst (App.augment Ex.largest Ex.half)) = JS.lit 78096)
    by (vm_compute; reflexivity).
  assert (D0 : App.price (Spec.derived 0 Ex.zero) = JS.lit 500)
    by (vm_compute; reflexivity).
  assert (D2 : App.price (Spec.derived (-1) Ex.minus_one) = JS.lit 149903)
    by (vm_compute; reflexivity).
  assert (D3 : App.price (Spec.derived (2 ^ 53 - 1) Ex.largest) = JS.lit 78127)
    by (vm_compute; reflexivity).
  assert (N : forall a b x y, x = JS.lit a -> y = JS.lit b ->
                (Z.abs a <? 2 ^ 53) = true -> (Z.abs b <? 2 ^ 53) = true ->
                (a =? b) = false -> x <> y).
  { intros a b x y -> -> Ha Hb Hab H. apply lit_inj in H.
    - apply Z.eqb_neq in Hab. contradiction.
    - apply Z.ltb_lt. exact Ha.
    - apply Z.ltb_lt. exact Hb. }
  split; [|split]; (split; [vm_compute; reflexivity|]); (split; [|split]).
  - vm_compute; reflexivity.
  - exact (N _ _ _ _ E0 D0 eq_refl eq_refl eq_refl).
  - exact (N _ _ _ _ E0 E1 eq_refl eq_refl eq_refl).
  - vm_compute; reflexivity.
  - exact E2.
  - exact (N _ _ _ _ E2 D2 eq_refl eq_refl eq_refl).
  - exact E3.
  - exact D3.
  - exact (N _ _ _ _ E3 D3 eq_refl eq_refl eq_refl).
Qed.

(** Claim C2, amended.  For every raw item whose id converts to a positive
    integer [z] with [z * 97 < 2^53], [augment] returns the category
    [labels[z mod 5]] and the price [((z * 97) mod 149500) + 500], leaves the
    random generator untouched, and returns the same item whatever the state
    of the generator. *)
Theorem augment_positive_id (photo : App.RawItem) (g : App.rng) (z : Z) :
  App.Number (App.id photo) = JS.lit z -> 0 < z -> z * 97 < 2 ^ 53 ->
  App.augment photo g = (Spec.derived z photo, g)
  /\ forall g', fst (App.augment photo g') = fst (App.augment photo g).
Proof.
  intros Hn Hz Hb.
  assert (E : forall g0, App.augment photo g0 = (Spec.derived z photo, g0)).
  { intros g0. rewrite augment_unfold. cbv zeta. rewrite Hn.
    rewrite (lit_small z) by (rewrite pow53 in *; lia).
    rewrite truthy_int. destruct (Z.eqb_spec z 0); [lia|]. cbn [negb fst snd].
    rewrite category_at_int, price_of_int by lia. reflexivity. }
  split; [apply E|]. intros g'. rewrite !E. reflexivity.
Qed.

Lemma augment_positive_id_witness :
  App.augment Ex.ten Ex.half
  = (Spec.derived 10 Ex.ten, Ex.half)
  /\ forall g', fst (App.augment Ex.ten g')
                = fst (App.augment Ex.ten Ex.half).
Proof.
  apply (augment_positive_id Ex.ten Ex.half 10).
  - vm_compute. reflexivity.
  - lia.
  - vm_compute. reflexivity.
Defined.

(** ** C5: the price range *)

(** Claim C5, counterexample.  The id -1 gets the price 403, and the id "1e307",
    whose product with 97 overflows, gets the price [NaN]; neither lies in
    [[500, 150000)]. *)
Lemma price_out_of_range :
  (App.price (fst (App.augment Ex.minus_one Ex.half)) = JS.lit 403
   /\ ~ Spec.in_range (App.price (fst (App.augment Ex.minus_one Ex.half))))
  /\ (App.price (fst (App.augment Ex.huge Ex.half)) = JS.NaN
      /\ ~ Spec.in_range (App.price (fst (App.augment Ex.huge Ex.half)))).
Proof.
  assert (E1 : App.price (fst (App.augment Ex.minus_one Ex.half)) = JS.lit 403)
    by (vm_compute; reflexivity).
  assert (E2 : App.price (fst (App.augment Ex.huge Ex.half)) = JS.NaN)
    by (vm_compute; reflexivity).
  split; (split; [assumption|]).
  - intros H. apply (lit_below_range 403); [lia|].
    exact (eq_ind _ Spec.in_range H _ E1).
  - intros H. apply NaN_not_in_range.
    exact (eq_ind _ Spec.in_range H _ E2).
Qed.

(** Claim C5, amended.  For every raw item whose id converts to a non-negative
    finite number for which [id * 97] does not overflow, the price produced
    by [augment] lies in [[500, 150000)]; for the id 0, where the fallback is
    taken, this holds for every value in [[0, 1)] that [Math.random] returns. *)
Theorem augment_price_in_range (photo : App.RawItem) (g : App.rng) (k : Z) :
  App.Number (App.id photo) = JS.Fin k -> 0 <= k ->
  JS.mul (JS.Fin k) (JS.lit 97) <> JS.Inf false ->
  Spec.unit_sample (g 0%nat) ->
  Spec.in_range (App.price (fst (App.augment photo g))).
Proof.
  intros Hn Hk Hfin Hu. rewrite augment_unfold. cbv zeta. rewrite Hn.
  cbn [JS.truthy]. destruct (Z.eqb_spec k 0) as [->|Hk0]; cbn [negb fst App.price].
  - destruct (unit_sample_draw 1000 10 (g 0%nat) ltac:(lia) ltac:(simpl; lia) Hu)
      as (i & -> & Hi).
    rewrite price_of_int by (rewrite ?pow53; lia).
    apply lit_in_range.
    pose proof (Z.mod_pos_bound (i * 97) 149500 ltac:(lia)). lia.
  - destruct (price_of_range k Hk Hfin) as (z & -> & Hz).
    apply lit_in_range. exact Hz.
Qed.

Lemma augment_price_in_range_witness :
  Spec.in_range (App.price (fst (App.augment Ex.ten Ex.half))).
Proof.
  apply (augment_price_in_range Ex.ten Ex.half (10 * JS.one)).
  - vm_compute. reflexivity.
  - vm_compute. discriminate.
  - vm_compute. discriminate.
  - exists (2 ^ 1073). conjuncts; vm_compute; congruence.
Defined.

(** ** C9: the list view and the detail view *)

(** Claim C9, counterexample.  The id 0 is numeric, and with a generator that
    returns 0.5 the list view prices the item at 49000 and the detail view at
    37000. *)
Lemma views_differ_at_zero :
  App.Number (App.id Ex.zero) = JS.lit 0
  /\ App.price (fst (App.augment Ex.zero Ex.half)) = JS.lit 49000
  /\ App.price (fst (App.details_augment Ex.zero Ex.half)) = JS.lit 37000
  /\ App.price (fst (App.augment Ex.zero Ex.half))
     <> App.price (fst (App.details_augment Ex.zero Ex.half)).
Proof.
  assert (E1 : App.price (fst (App.augment Ex.zero Ex.half)) = JS.lit 49000)
    by (vm_compute; reflexivity).
  assert (E2 : App.price (fst (App.details_augment Ex.zero Ex.half)) = JS.lit 37000)
    by (vm_compute; reflexivity).
  split; [vm_compute; reflexivity|]. split; [exact E1|]. split; [exact E2|].
  intros H.
  assert (P : JS.lit 49000 = JS.lit 37000).
  { exact (eq_trans (eq_sym E1) (eq_trans H E2)). }
  apply lit_inj in P; [discriminate P | vm_compute; reflexivity ..].
Qed.

(** Claim C9, amended.  The list view's [augment] and the detail view's inline
    re-derivation return the same item for every raw item whose id converts
    to a number other than 0 and [NaN], without calling the generator.  For
    every other id both take their fallback and differ only in its range:
    given a value of [Math.random] in [[0, 1)], the list view derives the
    item of an integer id in [[0, 1000)] and the detail view the item of an
    integer id in [[0, 10000)]. *)
Theorem views_agree (photo : App.RawItem) (g : App.rng) :
  (JS.truthy (App.Number (App.id photo)) = true ->
   forall g', fst (App.augment photo g) = fst (App.details_augment photo g')
              /\ snd (App.augment photo g) = g
              /\ snd (App.details_augment photo g') = g')
  /\ (JS.truthy (App.Number (App.id photo)) = false ->
      Spec.unit_sample (g 0%nat) ->
      exists i j,
        0 <= i < 1000 /\ 0 <= j < 10000
        /\ fst (App.augment photo g) = Spec.derived i photo
        /\ fst (App.details_augment photo g) = Spec.derived j photo).
Proof.
  split.
  - intros Ht g'. rewrite augment_unfold, details_augment_unfold. cbv zeta.
    rewrite Ht. cbn [fst snd]. repeat split; reflexivity.
  - intros Ht Hu. rewrite augment_unfold, details_augment_unfold. cbv zeta.
    rewrite Ht. cbn [fst snd].
    destruct (unit_sample_draw 1000 10 (g 0%nat) ltac:(lia) ltac:(simpl; lia) Hu)
      as (i & -> & Hi).
    destruct (unit_sample_draw 10000 14 (g 0%nat) ltac:(lia) ltac:(simpl; lia) Hu)
      as (j & -> & Hj).
    exists i, j. split; [exact Hi|]. split; [exact Hj|].
    rewrite !category_at_int, !price_of_int by (rewrite ?pow53; lia).
    split; reflexivity.
Qed.

Lemma views_agree_witness :
  (forall g', fst (App.augment Ex.ten Ex.half)
              = fst (App.details_augment Ex.ten g')
              /\ snd (App.augment Ex.ten Ex.half) = Ex.half
              /\ snd (App.details_augment Ex.ten g') = g')
  /\ exists i j,
       0 <= i < 1000 /\ 0 <= j < 10000
       /\ fst (App.augment Ex.missing Ex.half)
          = Spec.derived i Ex.missing
       /\ fst (App.details_augment Ex.missing Ex.half)
          = Spec.derived j Ex.missing.
Proof.
  split.
  - apply (proj1 (views_agree Ex.ten Ex.half)).
    vm_compute. reflexivity.
  - apply (proj2 (views_agree Ex.missing Ex.half)).
    + reflexivity.
    + exists (2 ^ 1073). conjuncts; vm_compute; congruence.
Defined.

(** ** The pipeline on the catalog of the specification *)

(** Of "Red Phone" and "Blue Laptop", the search text "blue" keeps the
    second; an empty list, or a filter that matches nothing, gives the
    empty list. *)
Example search_blue :
  let blue := {| App.Filters.search := "blue"; App.Filters.category := "";
                 App.Filters.minPrice := ""; App.Filters.maxPrice := "";
                 App.Filters.sort := "" |} in
  App.filtered [Ex.phone; Ex.laptop] blue = [Ex.laptop]
  /\ App.filtered [] blue = []
  /\ App.filtered [Ex.phone] blue = [].
Proof. vm_compute. repeat split; reflexivity. Qed.

(** ** C3: every item of the output meets the filter *)

(** Claim C3, counterexample.  With the text "0" as the upper bound, the item
    priced 597 is in the output although 597 <= 0 fails. *)
Lemma zero_bound_not_applied :
  In Ex.phone (App.filtered [Ex.phone] Ex.max_zero)
  /\ App.price Ex.phone = JS.lit 597
  /\ Spec.stated_bound (JS.Inf false) (App.Filters.maxPrice Ex.max_zero) = JS.lit 0
  /\ ~ Spec.meets Spec.stated_bound Ex.max_zero Ex.phone.
Proof.
  assert (B : Spec.stated_bound (JS.Inf false) (App.Filters.maxPrice Ex.max_zero)
              = JS.lit 0) by (vm_compute; reflexivity).
  assert (F : App.filtered [Ex.phone] Ex.max_zero = [Ex.phone]) by (vm_compute; reflexivity).
  split; [rewrite F; left; reflexivity|]. split; [reflexivity|]. split; [exact B|].
  intros (_ & _ & _ & H). rewrite B in H. unfold Ex.phone, Ex.item in H.
  cbn [App.price] in H. rewrite !lit_small in H by (vm_compute; reflexivity).
  cbn [JS.le] in H. apply Z.leb_le in H. pose proof one_pos. lia.
Qed.

(** Claim C3, amended.  For every item list and every filter, every item of the
    output contains the search text in its title, case-insensitively, when
    the search text is non-empty, has the category of the filter when one is
    set, and has a price between the two bounds inclusively, where a bound
    whose text is non-numeric or denotes zero (the empty text denotes zero)
    is minus infinity (lower) or plus infinity (upper). *)
Theorem filtered_items_meet_filter (items : list App.Item) (f : App.Filters.t)
    (p : App.Item) :
  In p (App.filtered items f) -> Spec.meets Spec.effective_bound f p.
Proof.
  intros Hin. apply kept_by_filter in Hin as (_ & Hk).
  unfold Spec.keeps in Hk.
  apply andb_prop in Hk as (Hk & Hprice). apply andb_prop in Hk as (Hsearch & Hcat).
  unfold Spec.meets. split; [|split].
  - intros Hs. apply truthy_nonempty in Hs. rewrite Hs in Hsearch. exact Hsearch.
  - intros Hc. apply truthy_nonempty in Hc. rewrite Hc in Hcat. cbn in Hcat.
    unfold App.by_category in Hcat. destruct (App.category p) as [c|]; [|discriminate].
    apply String.eqb_eq in Hcat. rewrite Hcat. reflexivity.
  - unfold App.by_price, JS.ge, App.minP, App.maxP in Hprice.
    rewrite !or_else_effective in Hprice. apply andb_prop in Hprice. exact Hprice.
Qed.

Lemma filtered_items_meet_filter_witness :
  Spec.meets Spec.effective_bound Ex.blue_laptops Ex.laptop.
Proof.
  apply (filtered_items_meet_filter [Ex.phone; Ex.laptop; Ex.tablet; Ex.cable]
           Ex.blue_laptops Ex.laptop).
  assert (F : App.filtered [Ex.phone; Ex.laptop; Ex.tablet; Ex.cable] Ex.blue_laptops
              = [Ex.cable; Ex.laptop; Ex.tablet]) by (vm_compute; reflexivity).
  rewrite F. right; left. reflexivity.
Defined.

(** ** C4: the order of the output *)

(** Claim C4.  When sort is "asc" the output prices never decrease and
    when it is "desc" they never increase; in every case the items of one
    price appear in the output in the order in which the input has them;
    and when sort is neither, the output is the input restricted to the
    items that pass the filter, in the order of the input. *)
Theorem filtered_order (items : list App.Item) (f : App.Filters.t) :
  (App.Filters.sort f = "asc"%string -> Spec.nondecreasing (App.filtered items f))
  /\ (App.Filters.sort f = "desc"%string -> Spec.nonincreasing (App.filtered items f))
  /\ (forall v, List.filter (Spec.has_price v) (App.filtered items f)
                = List.filter (Spec.has_price v) (List.filter (Spec.keeps f) items))
  /\ (App.Filters.sort f <> "asc"%string -> App.Filters.sort f <> "desc"%string ->
      App.filtered items f = List.filter (Spec.keeps f) items).
Proof.
  rewrite filtered_eq. set (l := List.filter (Spec.keeps f) items).
  assert (Hp : priced l) by apply keeps_priced.
  destruct (sort_stage_cases f l) as [(Hs & ->)|[(Hs & ->)|(Ha & Hd & ->)]].
  - split; [|split; [|split]]; try (rewrite Hs; intros; congruence).
    + intros _. unfold Spec.nondecreasing.
      apply (StronglySorted_nth (fun a b => JS.le (App.price a) (App.price b) = true)).
      apply (Array_sort_strongly App.asc _ (fun p => App.price p <> JS.NaN)).
      * intros x y z. apply le_trans.
      * intros x y Hx Hy H. rewrite not_after_asc in H by assumption. exact H.
      * intros x y Hx Hy H. rewrite not_after_asc in H by assumption.
        apply le_total; assumption.
      * exact Hp.
    + intros v. apply Array_sort_filter. apply asc_same_price.
  - split; [|split; [|split]]; try (rewrite Hs; intros; congruence).
    + intros _. unfold Spec.nonincreasing.
      apply (StronglySorted_nth (fun a b => JS.le (App.price b) (App.price a) = true)).
      apply (Array_sort_strongly App.desc _ (fun p => App.price p <> JS.NaN)).
      * intros x y z H1 H2. apply (le_trans _ _ _ H2 H1).
      * intros x y Hx Hy H. rewrite not_after_desc in H by assumption. exact H.
      * intros x y Hx Hy H. rewrite not_after_desc in H by assumption.
        apply le_total; assumption.
      * exact Hp.
    + intros v. apply Array_sort_filter. apply desc_same_price.
  - split; [|split; [|split]]; intros; congruence.
Qed.

Lemma filtered_order_witness :
  Spec.nondecreasing
    (App.filtered [Ex.cable; Ex.laptop; Ex.phone; Ex.tablet] (Ex.sorted_by "asc"))
  /\ Spec.nonincreasing
       (App.filtered [Ex.cable; Ex.laptop; Ex.phone; Ex.tablet] (Ex.sorted_by "desc"))
  /\ App.filtered [Ex.cable; Ex.laptop; Ex.phone; Ex.tablet] Ex.no_filter
     = List.filter (Spec.keeps Ex.no_filter) [Ex.cable; Ex.laptop; Ex.phone; Ex.tablet].
Proof.
  split; [|split].
  - apply (proj1 (filtered_order _ (Ex.sorted_by "asc"))). reflexivity.
  - apply (proj1 (proj2 (filtered_order _ (Ex.sorted_by "desc")))). reflexivity.
  - apply (proj2 (proj2 (proj2 (filtered_order _ Ex.no_filter)))); discriminate.
Defined.

(** ** C7: idempotence *)

(** Claim C7.  Applying the pipeline to its own output with the same
    filter gives the output again. *)
Theorem filtered_idempotent (items : list App.Item) (f : App.Filters.t) :
  App.filtered (App.filtered items f) f = App.filtered items f.
Proof.
  rewrite (filtered_eq (App.filtered items f)).
  rewrite filter_all.
  - rewrite filtered_eq. apply sort_stage_idem.
  - intros p Hp. apply kept_by_filter in Hp. apply Hp.
Qed.

(** ** C8: the input array is left alone *)

(** Claim C8.  Run on a store in which [items] holds the list [l], the
    pipeline returns the address of an array that did not exist before and
    that holds the filtered and sorted list; [items] still holds [l], and so
    does every other array of the store hold what it held. *)
Theorem filtered_leaves_input (h : App.store) (items : App.loc)
    (l : list App.Item) (f : App.Filters.t) :
  h !! items = Some l ->
  exists h' out,
    App.filtered_at h items f = Some (h', out)
    /\ out <> items
    /\ h' !! items = Some l
    /\ h' !! out = Some (App.filtered l f)
    /\ (out ∉ dom h)
    /\ (forall a, a ∈ dom h -> h' !! a = h !! a).
Proof.
  intros Hl.
  destruct (filtered_at_carries h items l f Hl) as (h' & out & E & Hv & Hnew & Hsame).
  assert (Hin : items ∈ dom h) by (apply elem_of_dom; rewrite Hl; eauto).
  exists h', out. split; [exact E|]. split.
  - intros ->. contradiction.
  - split; [rewrite (Hsame items Hin); exact Hl|].
    split; [exact Hv|]. split; [exact Hnew | exact Hsame].
Qed.

Lemma filtered_leaves_input_witness :
  exists h' out,
    App.filtered_at {[ 1%positive := [Ex.cable; Ex.phone] ]} 1%positive (Ex.sorted_by "asc")
    = Some (h', out)
    /\ out <> 1%positive
    /\ h' !! 1%positive = Some [Ex.cable; Ex.phone]
    /\ h' !! out = Some (App.filtered [Ex.cable; Ex.phone] (Ex.sorted_by "asc"))
    /\ (out ∉ dom ({[ 1%positive := [Ex.cable; Ex.phone] ]} : App.store))
    /\ (forall a, a ∈ dom ({[ 1%positive := [Ex.cable; Ex.phone] ]} : App.store) ->
                  h' !! a = ({[ 1%positive := [Ex.cable; Ex.phone] ]} : App.store) !! a).
Proof.
  apply (filtered_leaves_input {[ 1%positive := [Ex.cable; Ex.phone] ]} 1%positive
           [Ex.cable; Ex.phone] (Ex.sorted_by "asc")).
  apply lookup_singleton_eq.
Defined.

(** ** C10: a bound that denotes zero *)

(** Claim C10.  A filter whose minPrice or maxPrice text denotes the
    number 0 is treated as if that bound were absent: the lower bound is
    minus infinity, the upper bound is plus infinity, and the output is the
    one of the filter with the empty text in that place, so every item of
    the input that passes the filter without that bound is in the output;
    in particular maxPrice = "0" excludes no item that has a price: an item
    with a price that passes the search, the category and the lower bound
    is shown. *)
Theorem zero_bound_is_absent (items : list App.Item) (f : App.Filters.t) :
  (Str.StringToNumber (App.Filters.minPrice f) = JS.Fin 0 ->
   App.minP f = JS.Inf true
   /\ App.filtered items f = App.filtered items (Spec.with_minPrice "" f)
   /\ forall p, In p items -> Spec.keeps (Spec.with_minPrice "" f) p = true ->
                In p (App.filtered items f))
  /\ (Str.StringToNumber (App.Filters.maxPrice f) = JS.Fin 0 ->
      App.maxP f = JS.Inf false
      /\ App.filtered items f = App.filtered items (Spec.with_maxPrice "" f)
      /\ (forall p, App.price p <> JS.NaN -> JS.le (App.price p) (App.maxP f) = true)
      /\ (forall p, In p items -> Spec.keeps (Spec.with_maxPrice "" f) p = true ->
                    In p (App.filtered items f))
      /\ (forall p, In p items -> App.price p <> JS.NaN ->
                    (App.Filters.search f <> EmptyString -> App.by_search f p = true) ->
                    (App.Filters.category f <> EmptyString -> App.by_category f p = true) ->
                    JS.ge (App.price p) (App.minP f) = true ->
                    In p (App.filtered items f))).
Proof.
  split; intros Hz.
  - assert (E : App.minP f = JS.Inf true) by (unfold App.minP; rewrite Hz; reflexivity).
    split; [exact E|]. split.
    + apply filtered_ext; try reflexivity. rewrite E. reflexivity.
    + intros p Hi K. apply kept_is_shown; [exact Hi|].
      rewrite <- K. apply keeps_ext; try reflexivity. rewrite E. reflexivity.
  - assert (E : App.maxP f = JS.Inf false) by (unfold App.maxP; rewrite Hz; reflexivity).
    assert (L : forall p, App.price p <> JS.NaN ->
                          JS.le (App.price p) (App.maxP f) = true).
    { intros p Hp. rewrite E. destruct (App.price p) as [|s|k]; [congruence| |]; reflexivity. }
    split; [exact E|]. split; [|split; [exact L|split]].
    + apply filtered_ext; try reflexivity. rewrite E. reflexivity.
    + intros p Hi K. apply kept_is_shown; [exact Hi|].
      rewrite <- K. apply keeps_ext; try reflexivity. rewrite E. reflexivity.
    + intros p Hi Hp Hs Hc Hlo. apply kept_is_shown; [exact Hi|].
      unfold Spec.keeps, App.by_price. rewrite Hlo, (L p Hp).
      destruct (Str.truthy (App.Filters.search f)) eqn:Ts.
      * rewrite Hs by (now apply truthy_nonempty).
        destruct (Str.truthy (App.Filters.category f)) eqn:Tc; [|reflexivity].
        rewrite Hc by (now apply truthy_nonempty). reflexivity.
      * destruct (Str.truthy (App.Filters.category f)) eqn:Tc; [|reflexivity].
        rewrite Hc by (now apply truthy_nonempty). reflexivity.
Qed.

Lemma zero_bound_is_absent_witness :
  (App.minP Ex.max_zero = JS.Inf true
   /\ App.filtered [Ex.phone] Ex.max_zero
      = App.filtered [Ex.phone] (Spec.with_minPrice "" Ex.max_zero)
   /\ forall p, In p [Ex.phone] ->
                Spec.keeps (Spec.with_minPrice "" Ex.max_zero) p = true ->
                In p (App.filtered [Ex.phone] Ex.max_zero))
  /\ (App.maxP Ex.max_zero = JS.Inf false
      /\ App.filtered [Ex.phone] Ex.max_zero
         = App.filtered [Ex.phone] (Spec.with_maxPrice "" Ex.max_zero)
      /\ (forall p, App.price p <> JS.NaN ->
                    JS.le (App.price p) (App.maxP Ex.max_zero) = true)
      /\ In Ex.phone (App.filtered [Ex.phone] Ex.max_zero)).
Proof.
  split.
  - apply (proj1 (zero_bound_is_absent [Ex.phone] Ex.max_zero)).
    vm_compute. reflexivity.
  - assert (Z : Str.StringToNumber (App.Filters.maxPrice Ex.max_zero) = JS.Fin 0)
      by (vm_compute; reflexivity).
    destruct (proj2 (zero_bound_is_absent [Ex.phone] Ex.max_zero) Z)
      as (E & F & L & K & _).
    split; [exact E|]. split; [exact F|]. split; [exact L|].
    apply (K Ex.phone); [left; reflexivity | vm_compute; reflexivity].
Defined.

(** ** C1: a failed catalog load *)

(** Claim C1, counterexample.  A signed-in browser receives a 401 response whose
    body is the JSON object [{"error": "Invalid token"}], or a 200 response
    whose body is [{}]: both are fetch failures in the sense of the claim,
    and after either load the token is still stored, the route is unchanged,
    the guard lets the protected content render, and the catalog is empty. *)
Lemma load_keeps_session_on_json_body :
  (Spec.fetch_failure Ex.unauthorized = true
   /\ App.token (App.load Ex.signed_in Ex.unauthorized) = Some "t0k3n"%string
   /\ App.route (App.load Ex.signed_in Ex.unauthorized) = "/products"%string
   /\ App.PrivateRoute (App.load Ex.signed_in Ex.unauthorized) = App.Children
   /\ App.items (App.load Ex.signed_in Ex.unauthorized) = []
   /\ ~ Spec.logged_out (App.load Ex.signed_in Ex.unauthorized))
  /\ (Spec.fetch_failure Ex.empty_object = true
      /\ App.token (App.load Ex.signed_in Ex.empty_object) = Some "t0k3n"%string
      /\ App.route (App.load Ex.signed_in Ex.empty_object) = "/products"%string
      /\ App.PrivateRoute (App.load Ex.signed_in Ex.empty_object) = App.Children
      /\ App.items (App.load Ex.signed_in Ex.empty_object) = []
      /\ ~ Spec.logged_out (App.load Ex.signed_in Ex.empty_object)).
Proof.
  split; conjuncts; try reflexivity; intros (H & _); discriminate H.
Qed.

(** Claim C1, amended.  For every catalog load of a signed-in browser that ends
    in the catch branch - [fetch] rejects (network error), the body of the
    response is not JSON, or the unwrapped payload is a value other than an
    array - the load clears the stored token and navigates to the login
    entry point, so that the guard redirects; it shows one alert and leaves
    the catalog as it was. *)
Theorem load_rejection_logs_out (w : App.world) (r : App.fetch_result) :
  App.no_token (App.getToken w) = false -> Spec.rejects r = true ->
  Spec.logged_out (App.load w r)
  /\ App.loading (App.load w r) = false
  /\ App.items (App.load w r) = App.items w
  /\ length (App.alerts (App.load w r)) = S (length (App.alerts w)).
Proof.
  intros Htok Hrej. unfold App.load. rewrite (load_rejects w r Htok Hrej).
  unfold Spec.logged_out. cbn. rewrite length_app. cbn.
  repeat split; try reflexivity. lia.
Qed.

Lemma load_rejection_logs_out_witness :
  (Spec.logged_out (App.load Ex.signed_in App.NetworkError)
   /\ App.loading (App.load Ex.signed_in App.NetworkError) = false
   /\ App.items (App.load Ex.signed_in App.NetworkError) = App.items Ex.signed_in
   /\ length (App.alerts (App.load Ex.signed_in App.NetworkError))
      = S (length (App.alerts Ex.signed_in)))
  /\ (Spec.logged_out (App.load Ex.signed_in Ex.wrong_shape)
      /\ App.loading (App.load Ex.signed_in Ex.wrong_shape) = false
      /\ App.items (App.load Ex.signed_in Ex.wrong_shape) = App.items Ex.signed_in
      /\ length (App.alerts (App.load Ex.signed_in Ex.wrong_shape))
         = S (length (App.alerts Ex.signed_in))).
Proof.
  split.
  - apply (load_rejection_logs_out Ex.signed_in App.NetworkError); reflexivity.
  - apply (load_rejection_logs_out Ex.signed_in Ex.wrong_shape); reflexivity.
Defined.

(** * Further properties

    Properties of the pipeline beyond the claims, and of the components the
    claims leave out: [minMax], the success path of [load], the handlers of
    [Login] and [Signup], [logout], and the effect of [ProductDetails]. *)

(** ** [Number::toString]

    The conversion along each branch of its formatting rules. *)
Example NumberToString_examples :
  Conv.NumberToString (JS.lit 597) = "597"%string
  /\ Conv.NumberToString (JS.lit (-1)) = "-1"%string
  /\ Conv.NumberToString (JS.Fin 0) = "0"%string
  /\ Conv.NumberToString (Str.StringToNumber "0.1") = "0.1"%string
  /\ Conv.NumberToString (Str.StringToNumber "-10.50") = "-10.5"%string
  /\ Conv.NumberToString (Str.StringToNumber "1e21") = "1e+21"%string
  /\ Conv.NumberToString (JS.lit (2 ^ 60)) = "1152921504606847000"%string
  /\ Conv.NumberToString (Str.StringToNumber "0.000001") = "0.000001"%string
  /\ Conv.NumberToString (Str.StringToNumber "0.0000001") = "1e-7"%string
  /\ Conv.NumberToString (Str.StringToNumber "1.5e-10") = "1.5e-10"%string
  /\ Conv.NumberToString (JS.Inf true) = "-Infinity"%string
  /\ Conv.NumberToString JS.NaN = "NaN"%string.
Proof. conjuncts; vm_compute; reflexivity. Qed.

(** ** The pipeline *)

Lemma keeps_same f f' p :
  More.same_tests f f' -> Spec.keeps f p = Spec.keeps f' p.
Proof.
  intros (Hs & Hc & Hlo & Hhi).
  unfold Spec.keeps, App.by_search, App.by_category, App.by_price, App.minP, App.maxP.
  now rewrite Hs, Hc, Hlo, Hhi.
Qed.

(** Property X1.  The pipeline shows exactly the items that pass the three
    tests (search text, category, price bounds), each as often as the input
    holds it: its output is a permutation of the input filtered by the
    conjunction of the tests, whatever the sort key. *)
Theorem filtered_permutes_kept items f :
  Permutation (App.filtered items f) (List.filter (Spec.keeps f) items).
Proof. rewrite filtered_eq. apply sort_stage_perm. Qed.

(** Property X2.  The sort key only reorders: two filters that differ in
    the sort key at most show the same items, the same number of times. *)
Theorem sort_key_only_reorders items f f' :
  More.same_tests f f' ->
  Permutation (App.filtered items f) (App.filtered items f').
Proof.
  intros H. rewrite !filtered_eq.
  rewrite (List.filter_ext _ _ (fun p => keeps_same f f' p H)).
  etransitivity; [apply sort_stage_perm | symmetry; apply sort_stage_perm].
Qed.

Lemma sort_key_only_reorders_witness :
  Permutation
    (App.filtered [Ex.phone; Ex.laptop; Ex.tablet; Ex.cable] (Ex.sorted_by "desc"))
    (App.filtered [Ex.phone; Ex.laptop; Ex.tablet; Ex.cable] Ex.no_filter).
Proof.
  apply (sort_key_only_reorders [Ex.phone; Ex.laptop; Ex.tablet; Ex.cable]
           (Ex.sorted_by "desc") Ex.no_filter).
  unfold More.same_tests. conjuncts; reflexivity.
Defined.

Lemma toLowerCase_truthy s : Str.truthy (Str.toLowerCase s) = Str.truthy s.
Proof. now destruct s. Qed.

(** Property X3.  The search ignores the case of the search text: two
    filters whose search texts have the same lower-case form, and that agree
    otherwise, give the same output. *)
Theorem search_ignores_case items f f' :
  Str.toLowerCase (App.Filters.search f) = Str.toLowerCase (App.Filters.search f') ->
  App.Filters.category f = App.Filters.category f' ->
  App.Filters.minPrice f = App.Filters.minPrice f' ->
  App.Filters.maxPrice f = App.Filters.maxPrice f' ->
  App.Filters.sort f = App.Filters.sort f' ->
  App.filtered items f = App.filtered items f'.
Proof.
  intros Hs Hc Hlo Hhi Ho.
  assert (T : Str.truthy (App.Filters.search f) = Str.truthy (App.Filters.search f'))
    by now rewrite <- (toLowerCase_truthy (App.Filters.search f)), Hs, toLowerCase_truthy.
  assert (K : forall p, Spec.keeps f p = Spec.keeps f' p).
  { intros p.
    unfold Spec.keeps, App.by_search, App.by_category, App.by_price, App.minP, App.maxP.
    now rewrite T, Hs, Hc, Hlo, Hhi. }
  rewrite !filtered_eq, (List.filter_ext _ _ K). unfold sort_stage. now rewrite Ho.
Qed.

Lemma search_ignores_case_witness :
  App.filtered [Ex.phone; Ex.laptop; Ex.tablet; Ex.cable] (More.search_for "bLuE")
  = App.filtered [Ex.phone; Ex.laptop; Ex.tablet; Ex.cable] (More.search_for "Blue").
Proof.
  apply (search_ignores_case [Ex.phone; Ex.laptop; Ex.tablet; Ex.cable]
           (More.search_for "bLuE") (More.search_for "Blue")); reflexivity.
Defined.

(** Property X4.  When the upper price bound the pipeline reads is below
    the lower one, no item passes the price test and the output is empty,
    for every input and every other setting of the filter. *)
Theorem crossed_bounds_show_nothing items f :
  Spec.lt (App.maxP f) (App.minP f) = true ->
  App.filtered items f = [] /\ forall p, App.by_price f p = false.
Proof.
  intros H.
  assert (N : forall p, App.by_price f p = false).
  { intros p. destruct (App.by_price f p) eqn:E; [|reflexivity].
    unfold App.by_price, JS.ge in E. apply andb_true_iff in E as [E1 E2].
    pose proof (le_trans _ _ _ E1 E2) as E3.
    unfold Spec.lt in H. apply andb_true_iff in H as [_ H].
    rewrite E3 in H. discriminate. }
  split; [|exact N].
  rewrite filtered_eq.
  assert (F : List.filter (Spec.keeps f) items = []).
  { induction items as [|p l IH]; [reflexivity|]. simpl.
    unfold Spec.keeps at 1. rewrite N, andb_false_r. exact IH. }
  rewrite F. destruct (sort_stage_cases f []) as [[_ ->]|[[_ ->]|(_ & _ & ->)]]; reflexivity.
Qed.

Lemma crossed_bounds_show_nothing_witness :
  App.filtered [Ex.phone; Ex.laptop; Ex.tablet; Ex.cable] (More.priced_between "700" "600") = []
  /\ forall p, App.by_price (More.priced_between "700" "600") p = false.
Proof.
  apply (crossed_bounds_show_nothing [Ex.phone; Ex.laptop; Ex.tablet; Ex.cable]
           (More.priced_between "700" "600")).
  vm_compute. reflexivity.
Defined.

(** Property X5.  An item whose price is [NaN] (as [augment] computes for
    an id whose product with 97 overflows) is shown under no filter at all,
    not even the unset one: both comparisons of the price test are false
    on [NaN]. *)
Theorem unpriced_item_never_shown items f p :
  App.price p = JS.NaN -> ~ In p (App.filtered items f).
Proof.
  intros E H. apply kept_by_filter in H as [_ K].
  unfold Spec.keeps in K. apply andb_true_iff in K as [_ K].
  exact (by_price_priced f p K E).
Qed.

Lemma unpriced_item_never_shown_witness :
  App.price (fst (App.augment Ex.huge Ex.half)) = JS.NaN
  /\ ~ In (fst (App.augment Ex.huge Ex.half))
         (App.filtered [Ex.phone; fst (App.augment Ex.huge Ex.half)] Ex.no_filter).
Proof.
  assert (E : App.price (fst (App.augment Ex.huge Ex.half)) = JS.NaN)
    by (vm_compute; reflexivity).
  split; [exact E|].
  exact (unpriced_item_never_shown [Ex.phone; fst (App.augment Ex.huge Ex.half)]
           Ex.no_filter (fst (App.augment Ex.huge Ex.half)) E).
Defined.

Lemma falsy_bounds f p :
  JS.truthy (Str.StringToNumber (App.Filters.minPrice f)) = false ->
  JS.truthy (Str.StringToNumber (App.Filters.maxPrice f)) = false ->
  App.price p <> JS.NaN -> App.by_price f p = true.
Proof.
  intros Hlo Hhi Hp. unfold App.by_price, App.minP, App.maxP, JS.or_else, JS.ge.
  rewrite Hlo, Hhi. destruct (App.price p) as [|s|k]; [congruence| |]; simpl.
  - now destruct s.
  - reflexivity.
Qed.

(** Property X6.  With no search text, no category, price bounds that are
    empty, zero or not numeric, and a sort key other than "asc" and "desc",
    the output is the input in its order, without the items whose price is
    [NaN]. *)
Theorem unset_filter_shows_every_priced_item items f :
  App.Filters.search f = EmptyString ->
  App.Filters.category f = EmptyString ->
  JS.truthy (Str.StringToNumber (App.Filters.minPrice f)) = false ->
  JS.truthy (Str.StringToNumber (App.Filters.maxPrice f)) = false ->
  App.Filters.sort f <> "asc"%string -> App.Filters.sort f <> "desc"%string ->
  App.filtered items f = List.filter (fun p => negb (Spec.has_price JS.NaN p)) items.
Proof.
  intros Hs Hc Hlo Hhi Ha Hd. rewrite filtered_eq.
  destruct (sort_stage_cases f (List.filter (Spec.keeps f) items))
    as [[E _]|[[E _]|(_ & _ & ->)]]; [congruence|congruence|].
  apply List.filter_ext. intros p. unfold Spec.keeps. rewrite Hs, Hc. simpl.
  unfold Spec.has_price. destruct (App.price p) eqn:E.
  - simpl. destruct (App.by_price f p) eqn:B; [|reflexivity].
    now apply by_price_priced in B.
  - apply falsy_bounds; congruence.
  - apply falsy_bounds; congruence.
Qed.

Lemma unset_filter_shows_every_priced_item_witness :
  App.filtered [Ex.cable; fst (App.augment Ex.huge Ex.half); Ex.phone] Ex.max_zero
  = List.filter (fun p => negb (Spec.has_price JS.NaN p))
      [Ex.cable; fst (App.augment Ex.huge Ex.half); Ex.phone].
Proof.
  apply (unset_filter_shows_every_priced_item
           [Ex.cable; fst (App.augment Ex.huge Ex.half); Ex.phone] Ex.max_zero);
    try reflexivity; discriminate.
Defined.

Lemma keeps_narrows f f' p :
  More.narrows f f' -> Spec.keeps f' p = true -> Spec.keeps f p = true.
Proof.
  intros (Hs & Hc & Hlo & Hhi). unfold Spec.keeps.
  rewrite !andb_true_iff. intros [[K1 K2] K3]. repeat split.
  - destruct Hs as [-> | Hs]; [reflexivity|].
    unfold App.by_search in *. now rewrite Hs.
  - destruct Hc as [-> | Hc]; [reflexivity|].
    unfold App.by_category in *. now rewrite Hc.
  - unfold App.by_price, App.minP, App.maxP in *. now rewrite Hlo, Hhi.
Qed.

Lemma filter_length_mono {A} (P Q : A -> bool) l :
  (forall x, Q x = true -> P x = true) ->
  (List.length (List.filter Q l) <= List.length (List.filter P l))%nat.
Proof.
  intros H. induction l as [|x l IH]; simpl; [lia|].
  destruct (Q x) eqn:E.
  - rewrite (H x E). simpl. lia.
  - destruct (P x); simpl; lia.
Qed.

(** Property X7.  Adding a search text or a category to a filter that has
    none, with the price bounds kept, never adds an item: every item of the
    new output is in the old one, and the new output is not longer. *)
Theorem narrower_filter_shows_no_more items f f' :
  More.narrows f f' ->
  (forall p, In p (App.filtered items f') -> In p (App.filtered items f))
  /\ (List.length (App.filtered items f') <= List.length (App.filtered items f))%nat.
Proof.
  intros H. split.
  - intros p Hp. apply kept_by_filter in Hp as [Hi K].
    rewrite filtered_eq.
    apply (Permutation_in p (Permutation_sym (sort_stage_perm f _))).
    apply filter_In. split; [exact Hi | exact (keeps_narrows f f' p H K)].
  - rewrite !filtered_eq.
    rewrite (Permutation_length (sort_stage_perm f' _)),
            (Permutation_length (sort_stage_perm f _)).
    apply filter_length_mono. intros p. apply keeps_narrows, H.
Qed.

Lemma narrower_filter_shows_no_more_witness :
  (forall p, In p (App.filtered [Ex.phone; Ex.laptop; Ex.cable] (More.search_for "blue")) ->
             In p (App.filtered [Ex.phone; Ex.laptop; Ex.cable] (Ex.sorted_by "desc")))
  /\ (List.length (App.filtered [Ex.phone; Ex.laptop; Ex.cable] (More.search_for "blue"))
      <= List.length (App.filtered [Ex.phone; Ex.laptop; Ex.cable] (Ex.sorted_by "desc")))%nat.
Proof.
  apply (narrower_filter_shows_no_more [Ex.phone; Ex.laptop; Ex.cable]
           (Ex.sorted_by "desc") (More.search_for "blue")).
  unfold More.narrows. conjuncts; try reflexivity; left; reflexivity.
Defined.

(** *** [minMax] *)

Lemma Math_min_NaN l : In JS.NaN l -> Pages.Math_min l = JS.NaN.
Proof.
  induction l as [|x l IH]; simpl; [tauto|]. intros [-> | H]; [reflexivity|].
  rewrite (IH H). now destruct x.
Qed.

Lemma Math_max_NaN l : In JS.NaN l -> Pages.Math_max l = JS.NaN.
Proof.
  induction l as [|x l IH]; simpl; [tauto|]. intros [-> | H]; [reflexivity|].
  rewrite (IH H). now destruct x.
Qed.

Lemma le_Inf_false x : x <> JS.NaN -> JS.le x (JS.Inf false) = true.
Proof. destruct x as [|[]|]; simpl; congruence. Qed.

Lemma le_Inf_true x : x <> JS.NaN -> JS.le (JS.Inf true) x = true.
Proof. destruct x as [|[]|]; simpl; congruence. Qed.

Lemma Math_min_spec l :
  Forall (fun x => x <> JS.NaN) l ->
  Pages.Math_min l <> JS.NaN
  /\ (forall x, In x l -> JS.le (Pages.Math_min l) x = true)
  /\ (l <> [] -> In (Pages.Math_min l) l).
Proof.
  induction 1 as [|x l Hx Hl (IH1 & IH2 & IH3)]; simpl.
  - repeat split; [discriminate | tauto | congruence].
  - set (m := Pages.Math_min l) in *.
    assert (E : match x with
                | JS.NaN => JS.NaN
                | _ => match m with
                       | JS.NaN => JS.NaN
                       | _ => if JS.le x m then x else m
                       end
                end = if JS.le x m then x else m).
    { destruct x; [congruence| |]; destruct m; congruence. }
    rewrite E. clear E. destruct (JS.le x m) eqn:L.
    + split; [exact Hx|]. split; [|intros _; now left].
      intros y [<- | Hy]; [now apply le_refl|].
      exact (le_trans _ _ _ L (IH2 y Hy)).
    + split; [exact IH1|]. split.
      * intros y [<- | Hy]; [now apply le_total | now apply IH2].
      * intros _. right. apply IH3. intros ->. subst m.
        change (Pages.Math_min []) with (JS.Inf false) in L.
        now rewrite le_Inf_false in L.
Qed.

Lemma Math_max_spec l :
  Forall (fun x => x <> JS.NaN) l ->
  Pages.Math_max l <> JS.NaN
  /\ (forall x, In x l -> JS.le x (Pages.Math_max l) = true)
  /\ (l <> [] -> In (Pages.Math_max l) l).
Proof.
  induction 1 as [|x l Hx Hl (IH1 & IH2 & IH3)]; simpl.
  - repeat split; [discriminate | tauto | congruence].
  - set (m := Pages.Math_max l) in *.
    assert (E : match x with
                | JS.NaN => JS.NaN
                | _ => match m with
                       | JS.NaN => JS.NaN
                       | _ => if JS.le m x then x else m
                       end
                end = if JS.le m x then x else m).
    { destruct x; [congruence| |]; destruct m; congruence. }
    rewrite E. clear E. destruct (JS.le m x) eqn:L.
    + split; [exact Hx|]. split; [|intros _; now left].
      intros y [<- | Hy]; [now apply le_refl|].
      exact (le_trans _ _ _ (IH2 y Hy) L).
    + split; [exact IH1|]. split.
      * intros y [<- | Hy]; [now apply le_total | now apply IH2].
      * intros _. right. apply IH3. intros ->. subst m.
        change (Pages.Math_max []) with (JS.Inf true) in L.
        now rewrite le_Inf_true in L.
Qed.

Lemma minMax_cons p l :
  Pages.minMax (p :: l)
  = {| Pages.min := Pages.Math_min (List.map App.price (p :: l));
       Pages.max := Pages.Math_max (List.map App.price (p :: l)) |}.
Proof. reflexivity. Qed.

Lemma priced_check l :
  forallb (fun p => negb (Spec.has_price JS.NaN p)) l = true -> priced l.
Proof.
  unfold priced. rewrite forallb_forall, List.Forall_forall.
  intros H p Hp E. specialize (H p Hp). unfold Spec.has_price in H.
  rewrite E in H. discriminate.
Qed.

(** Property X8.  For a non-empty list without [NaN] prices, [minMax]
    bounds every price from below and from above, and both bounds are the
    price of an item of the list. *)
Theorem minMax_bounds_every_price items :
  items <> [] -> priced items ->
  (forall p, In p items ->
     JS.le (Pages.min (Pages.minMax items)) (App.price p) = true
     /\ JS.le (App.price p) (Pages.max (Pages.minMax items)) = true)
  /\ (exists p, In p items /\ App.price p = Pages.min (Pages.minMax items))
  /\ (exists p, In p items /\ App.price p = Pages.max (Pages.minMax items)).
Proof.
  intros Hne Hp. destruct items as [|q l]; [congruence|]. rewrite minMax_cons.
  set (items := q :: l) in *. clearbody items.
  assert (F : Forall (fun x => x <> JS.NaN) (List.map App.price items)).
  { unfold priced in Hp. rewrite List.Forall_forall in *.
    intros x Hx. apply in_map_iff in Hx as (p & <- & Hi). now apply Hp. }
  assert (N : List.map App.price items <> []) by (destruct items; simpl; congruence).
  destruct (Math_min_spec _ F) as (_ & Lo & Lo').
  destruct (Math_max_spec _ F) as (_ & Hi & Hi'). cbn [Pages.min Pages.max].
  split; [|split].
  - intros p Hi0. split; [apply Lo | apply Hi]; now apply in_map.
  - specialize (Lo' N). apply in_map_iff in Lo' as (p & E & Hi0). now exists p.
  - specialize (Hi' N). apply in_map_iff in Hi' as (p & E & Hi0). now exists p.
Qed.

Lemma minMax_bounds_every_price_witness :
  (forall p, In p [Ex.laptop; Ex.phone; Ex.cable] ->
     JS.le (Pages.min (Pages.minMax [Ex.laptop; Ex.phone; Ex.cable])) (App.price p) = true
     /\ JS.le (App.price p) (Pages.max (Pages.minMax [Ex.laptop; Ex.phone; Ex.cable])) = true)
  /\ (exists p, In p [Ex.laptop; Ex.phone; Ex.cable]
                /\ App.price p = Pages.min (Pages.minMax [Ex.laptop; Ex.phone; Ex.cable]))
  /\ (exists p, In p [Ex.laptop; Ex.phone; Ex.cable]
                /\ App.price p = Pages.max (Pages.minMax [Ex.laptop; Ex.phone; Ex.cable])).
Proof.
  apply (minMax_bounds_every_price [Ex.laptop; Ex.phone; Ex.cable]).
  - discriminate.
  - apply priced_check. vm_compute. reflexivity.
Defined.

(** Property X9.  One item with the price [NaN] makes both values of
    [minMax] [NaN], wherever it stands and whatever the other prices are. *)
Theorem minMax_of_unpriced_item items p :
  In p items -> App.price p = JS.NaN ->
  Pages.minMax items = {| Pages.min := JS.NaN; Pages.max := JS.NaN |}.
Proof.
  intros Hi E. destruct items as [|q l]; [destruct Hi|]. rewrite minMax_cons.
  assert (H : In JS.NaN (List.map App.price (q :: l))).
  { rewrite <- E. now apply in_map. }
  now rewrite (Math_min_NaN _ H), (Math_max_NaN _ H).
Qed.

Lemma minMax_of_unpriced_item_witness :
  Pages.minMax [Ex.phone; fst (App.augment Ex.huge Ex.half); Ex.cable]
  = {| Pages.min := JS.NaN; Pages.max := JS.NaN |}.
Proof.
  apply (minMax_of_unpriced_item
           [Ex.phone; fst (App.augment Ex.huge Ex.half); Ex.cable]
           (fst (App.augment Ex.huge Ex.half))).
  - right; left; reflexivity.
  - vm_compute. reflexivity.
Defined.

(** *** [load] *)

Lemma map_rng_photo f arr g :
  (forall p g0, App.photo (fst (f p g0)) = p) ->
  List.map App.photo (fst (App.map_rng f arr g)) = arr.
Proof.
  intros H. revert g. induction arr as [|p r IH]; intros g; simpl; [reflexivity|].
  specialize (H p g) as Hp. destruct (f p g) as [x g1]. specialize (IH g1).
  destruct (App.map_rng f r g1) as [xs g2]. simpl in *. now rewrite Hp, IH.
Qed.

Lemma augment_photo p g : App.photo (fst (App.augment p g)) = p.
Proof. rewrite augment_unfold. reflexivity. Qed.

Lemma details_augment_photo p g : App.photo (fst (App.details_augment p g)) = p.
Proof. rewrite details_augment_unfold. reflexivity. Qed.

Lemma map_photos_some f arr g :
  App.map_photos f (List.map Some arr) g
  = (Some (fst (App.map_rng f arr g)), snd (App.map_rng f arr g)).
Proof.
  revert g. induction arr as [|p r IH]; intros g; [reflexivity|].
  cbn [List.map App.map_photos App.map_rng]. destruct (f p g) as [x g1].
  rewrite IH. destruct (App.map_rng f r g1) as [xs g2]. reflexivity.
Qed.

Lemma map_photos_null f els g :
  In None els -> fst (App.map_photos f els g) = None.
Proof.
  revert g. induction els as [|[p|] r IH]; intros g H; [destruct H | | reflexivity].
  destruct H as [H | H]; [discriminate|].
  cbn [App.map_photos]. destruct (f p g) as [x g1]. specialize (IH g1 H).
  destruct (App.map_photos f r g1) as [xs g2]. cbn [fst] in *. now rewrite IH.
Qed.

Lemma load_accepts w ok data arr :
  App.no_token (App.getToken w) = false ->
  App.unwrap data = App.JPhotos (List.map Some arr) ->
  App.load w (App.Response ok (Some data))
  = App.setLoading false
      (App.setItems (fst (App.map_rng App.augment arr (App.random w)))
                    (snd (App.map_rng App.augment arr (App.random w)))
                    (App.setLoading true w)).
Proof.
  intros Ht Hu. unfold App.load, App.load_try.
  change (App.getToken (App.setLoading true w)) with (App.getToken w).
  rewrite Ht, Hu. change (App.random (App.setLoading true w)) with (App.random w).
  now rewrite map_photos_some.
Qed.

Lemma load_null_element w ok data els :
  App.no_token (App.getToken w) = false ->
  App.unwrap data = App.JPhotos els -> In None els ->
  App.load w (App.Response ok (Some data))
  = App.setLoading false
      (App.navigate "/login"
         (App.removeToken
            (App.alert
               "Failed to fetch products (token might be invalid). Please login again."
               (App.setRandom (snd (App.map_photos App.augment els (App.random w)))
                  (App.setLoading true w))))).
Proof.
  intros Ht Hu Hn. unfold App.load, App.load_try.
  change (App.getToken (App.setLoading true w)) with (App.getToken w).
  rewrite Ht, Hu. change (App.random (App.setLoading true w)) with (App.random w).
  pose proof (map_photos_null App.augment els (App.random w) Hn) as E.
  destruct (App.map_photos App.augment els (App.random w)) as [l g].
  cbn [fst snd] in *. now rewrite E.
Qed.

(** Property X10.  With a token stored and a payload that unwraps to an
    array of photos, [load] does one of two things, whatever the status of
    the response ([res.ok] is not read).  When every element is a photo
    record it stores the photos, augmented in their order; the token, the
    route and the alerts stay as they are and [loading] ends false.  When
    an element is [null], [augment] throws on it and [load] ends in its
    [catch] branch: the token is removed, the route is "/login", one alert
    is added and the items stay as they were. *)
Theorem load_stores_the_payload w ok data els :
  App.no_token (App.getToken w) = false -> App.unwrap data = App.JPhotos els ->
  let w' := App.load w (App.Response ok (Some data)) in
  (forall arr, els = List.map Some arr ->
     App.items w' = fst (App.map_rng App.augment arr (App.random w))
     /\ List.map App.photo (App.items w') = arr
     /\ App.token w' = App.token w /\ App.route w' = App.route w
     /\ App.alerts w' = App.alerts w /\ App.loading w' = false)
  /\ (In None els ->
      Spec.logged_out w' /\ App.items w' = App.items w
      /\ List.length (App.alerts w') = S (List.length (App.alerts w))
      /\ App.loading w' = false).
Proof.
  intros Ht Hu w'. subst w'. split.
  - intros arr ->. rewrite (load_accepts w ok data arr Ht Hu). cbn.
    repeat split. apply map_rng_photo, augment_photo.
  - intros Hn. rewrite (load_null_element w ok data els Ht Hu Hn).
    unfold Spec.logged_out. cbn. rewrite length_app. cbn.
    repeat split; try reflexivity. lia.
Qed.

Lemma load_stores_the_payload_witness :
  (let w' := App.load Ex.signed_in More.catalog in
   App.items w' = fst (App.map_rng App.augment More.three (App.random Ex.signed_in))
   /\ List.map App.photo (App.items w') = More.three
   /\ App.token w' = App.token Ex.signed_in /\ App.route w' = App.route Ex.signed_in
   /\ App.alerts w' = App.alerts Ex.signed_in /\ App.loading w' = false)
  /\ (let w' := App.load Ex.signed_in More.holed in
      Spec.logged_out w' /\ App.items w' = App.items Ex.signed_in
      /\ List.length (App.alerts w') = S (List.length (App.alerts Ex.signed_in))
      /\ App.loading w' = false).
Proof.
  split.
  - apply (proj1 (load_stores_the_payload Ex.signed_in true More.catalog_body
                    (List.map Some More.three) eq_refl eq_refl) More.three).
    reflexivity.
  - apply (proj2 (load_stores_the_payload Ex.signed_in true More.holed_body
                    [Some (More.photo_with "1" "Red Phone"); None] eq_refl eq_refl)).
    right; left; reflexivity.
Defined.

(** Property X11.  The unwrapped payload is the array [arr] in exactly
    three cases: [data.data.photos.data] is [arr]; that value is falsy and
    [data.photos.data] is [arr]; or both values are falsy and [arr] is
    empty.  So a truthy first value wins even when the second is an array,
    and an empty array found at a place is taken (it is truthy). *)
Theorem unwrap_gives_array_cases data arr :
  App.unwrap data = App.JPhotos arr
  <-> More.nested data = Some (App.JPhotos arr)
      \/ (App.json_truthy (More.nested data) = false
          /\ More.flat data = Some (App.JPhotos arr))
      \/ (App.json_truthy (More.nested data) = false
          /\ App.json_truthy (More.flat data) = false /\ arr = []).
Proof.
  unfold App.unwrap. fold (More.nested data). fold (More.flat data).
  generalize (More.nested data) (More.flat data). intros a b.
  destruct (App.json_truthy a) eqn:Ta.
  - destruct a as [x|]; [|discriminate]. simpl. split.
    + intros ->. now left.
    + intros [H | [[H _] | [H _]]]; congruence.
  - destruct (App.json_truthy b) eqn:Tb.
    + destruct b as [y|]; [|discriminate]. simpl. split.
      * intros ->. right; left. split; reflexivity.
      * intros [H | [[_ H] | (_ & H & _)]]; [| congruence | discriminate].
        rewrite H in Ta. discriminate.
    + split.
      * intros H. injection H as <-. right; right. repeat split.
      * intros [H | [[_ H] | (_ & _ & ->)]]; [| | reflexivity].
        -- rewrite H in Ta. discriminate.
        -- rewrite H in Tb. discriminate.
Qed.

(** Property X12.  Whatever the stored state and the response, [load]
    ends with [loading] false, never stores a token (it keeps the token or
    removes it), navigates nowhere but to "/login", adds at most one alert
    and only together with removing the token and going to "/login" with
    the items untouched, and replaces the items only when it keeps the
    token, the route and the alerts. *)
Theorem load_changes_only w r :
  let w' := App.load w r in
  App.loading w' = false
  /\ (App.token w' = App.token w \/ App.token w' = None)
  /\ (App.route w' = App.route w \/ App.route w' = "/login"%string)
  /\ (App.alerts w' = App.alerts w
      \/ ((exists msg, App.alerts w' = App.alerts w ++ [msg])
          /\ App.token w' = None /\ App.route w' = "/login"%string
          /\ App.items w' = App.items w))
  /\ (App.items w' = App.items w
      \/ (App.token w' = App.token w /\ App.route w' = App.route w
          /\ App.alerts w' = App.alerts w)).
Proof.
  intros w'. subst w'. unfold App.load, App.load_try.
  change (App.getToken (App.setLoading true w)) with (App.getToken w).
  destruct (App.no_token (App.getToken w)).
  { cbn. tauto. }
  assert (T : forall a w0,
    App.alerts w0 = App.alerts w -> App.items w0 = App.items w ->
    App.token w0 = App.token w -> App.route w0 = App.route w ->
    let w' := App.setLoading false
                (App.navigate "/login" (App.removeToken (App.alert a w0))) in
    App.loading w' = false
    /\ (App.token w' = App.token w \/ App.token w' = None)
    /\ (App.route w' = App.route w \/ App.route w' = "/login"%string)
    /\ (App.alerts w' = App.alerts w
        \/ ((exists msg, App.alerts w' = App.alerts w ++ [msg])
            /\ App.token w' = None /\ App.route w' = "/login"%string
            /\ App.items w' = App.items w))
    /\ (App.items w' = App.items w
        \/ (App.token w' = App.token w /\ App.route w' = App.route w
            /\ App.alerts w' = App.alerts w))).
  { intros a w0 Ea Ei Et Er. cbn. rewrite Ea, Ei.
    repeat split; try tauto. right. repeat split. now exists a. }
  destruct r as [|ok [data|]]; [now apply T | | now apply T].
  destruct (App.unwrap data); try (now apply T).
  change (App.random (App.setLoading true w)) with (App.random w).
  destruct (App.map_photos App.augment arr (App.random w)) as [[l|] g].
  - cbn. tauto.
  - now apply T.
Qed.

(** *** Text of a value *)

Lemma digits_nonempty fuel z acc :
  acc <> [] \/ fuel <> O -> Conv.digits fuel z acc <> [].
Proof.
  revert z acc. induction fuel as [|f IH]; intros z acc H; simpl.
  - destruct H; congruence.
  - destruct (z <? 10); [discriminate|]. apply IH. left. discriminate.
Qed.

Lemma decimal_nonempty z : Conv.decimal z <> [].
Proof. apply digits_nonempty. right. discriminate. Qed.

Lemma format_nonempty ds n : ds <> [] -> Conv.format ds n <> [].
Proof.
  intros H. unfold Conv.format.
  destruct ((Z.of_nat (List.length ds) <=? n) && (n <=? 21)).
  { intros E. apply app_eq_nil in E as [E _]. contradiction. }
  destruct ((0 <? n) && (n <=? 21)).
  { intros E. apply app_eq_nil in E as [_ E]. discriminate. }
  destruct ((-6 <? n) && (n <=? 0)); [discriminate|].
  destruct ds as [|d [|d' r]]; [contradiction| discriminate | discriminate].
Qed.

Lemma string_of_list_nonempty l : l <> [] -> string_of_list_ascii l <> EmptyString.
Proof. destruct l; [contradiction | discriminate]. Qed.

Lemma NumberToString_nonempty x : Conv.NumberToString x <> EmptyString.
Proof.
  destruct x as [|s|k]; unfold Conv.NumberToString.
  - discriminate.
  - destruct s; discriminate.
  - destruct (k =? 0); [discriminate|].
    destruct (Conv.shortest 17 (Z.abs k) (Conv.magnitude (Z.abs k)) 1) as [s n].
    apply string_of_list_nonempty. intros E. apply app_eq_nil in E as [_ E].
    exact (format_nonempty _ _ (decimal_nonempty s) E).
Qed.

Lemma concat_comma_empty l :
  String.concat "," l = EmptyString -> l = [] \/ l = [EmptyString].
Proof.
  destruct l as [|x [|y r]]; simpl.
  - now left.
  - intros ->. now right.
  - destruct x; discriminate.
Qed.

Lemma to_string_empty t :
  App.json_truthy t = true ->
  Pages.to_string t = Some EmptyString ->
  t = Some (App.JPhotos []) \/ t = Some (App.JPhotos [None]).
Proof.
  intros T.
  destruct t as [[| b | n | s | arr | props]|]; simpl in *; try discriminate.
  - destruct b; discriminate.
  - intros E. injection E as E. now apply NumberToString_nonempty in E.
  - intros E. injection E as ->. discriminate.
  - intros E. injection E as E. apply concat_comma_empty in E as [E | E].
    + left. destruct arr; [reflexivity | discriminate].
    + right. destruct arr as [|[p|] [|q r]]; try discriminate. reflexivity.
  - destruct (existsb _ props); discriminate.
Qed.

(** *** [Login] and [Signup] *)

Lemma Login_accepts w data s :
  App.json_truthy (App.get (Some data) "token") = true ->
  Pages.to_string (App.get (Some data) "token") = Some s ->
  Pages.Login_handleSubmit w (App.Response true (Some data))
  = App.navigate "/products" (App.saveToken s w).
Proof.
  intros T S. unfold Pages.Login_handleSubmit, Pages.Login_try, Pages.prop.
  destruct data; try (simpl in T; discriminate T). now rewrite T, S.
Qed.

Lemma Login_unprintable w data :
  App.json_truthy (App.get (Some data) "token") = true ->
  Pages.to_string (App.get (Some data) "token") = None ->
  Pages.Login_handleSubmit w (App.Response true (Some data))
  = App.alert "Login failed" w.
Proof.
  intros T S. unfold Pages.Login_handleSubmit, Pages.Login_try, Pages.prop.
  destruct data; try (simpl in T; discriminate T). now rewrite T, S.
Qed.

Lemma alert_error_text fallback ok data w :
  match Pages.alert_error fallback data w with
  | App.Returned w' => w'
  | App.Thrown w' => App.alert fallback w'
  end = App.alert (More.failure_text fallback (App.Response ok (Some data))) w.
Proof.
  unfold Pages.alert_error, Pages.prop, More.failure_text.
  destruct data; try reflexivity.
  destruct (App.json_truthy (App.get (Some (App.JObject props)) "error"));
    [|reflexivity].
  now destruct (Pages.to_string (App.get (Some (App.JObject props)) "error")).
Qed.

Lemma Login_refuses w ok data :
  (ok = true -> App.json_truthy (App.get (Some data) "token") = false) ->
  Pages.Login_handleSubmit w (App.Response ok (Some data))
  = App.alert (More.failure_text "Login failed" (App.Response ok (Some data))) w.
Proof.
  intros H. rewrite <- (alert_error_text "Login failed" ok data w).
  unfold Pages.Login_handleSubmit, Pages.Login_try, Pages.prop.
  destruct ok; [|reflexivity]. specialize (H eq_refl).
  destruct data; try reflexivity. now rewrite H.
Qed.

(** Property X14.  [handleSubmit] of [Login] either signs in or alerts,
    never both: on a response with success status whose body has a truthy
    [token] it stores the text of the token and goes to "/products",
    without an alert.  In every other case the token and the route stay as
    they are and exactly one alert is added: "Login failed" when the truthy
    token has no text (its conversion throws), and otherwise (network
    error, body that is not JSON or is [null], no success status, falsy
    token) the text of the body's [error] when that is truthy and has one,
    "Login failed" if not. *)
Theorem Login_signs_in_or_alerts w r :
  let w' := Pages.Login_handleSubmit w r in
  (exists data s,
      r = App.Response true (Some data)
      /\ App.json_truthy (App.get (Some data) "token") = true
      /\ Pages.to_string (App.get (Some data) "token") = Some s
      /\ w' = App.navigate "/products" (App.saveToken s w))
  \/ (exists data,
        r = App.Response true (Some data)
        /\ App.json_truthy (App.get (Some data) "token") = true
        /\ Pages.to_string (App.get (Some data) "token") = None
        /\ w' = App.alert "Login failed" w)
  \/ ((forall data, r = App.Response true (Some data) ->
                    App.json_truthy (App.get (Some data) "token") = false)
      /\ w' = App.alert (More.failure_text "Login failed" r) w).
Proof.
  intros w'. subst w'.
  destruct r as [|ok [data|]].
  - right; right. split; [discriminate | reflexivity].
  - destruct ok.
    + destruct (App.json_truthy (App.get (Some data) "token")) eqn:T.
      * destruct (Pages.to_string (App.get (Some data) "token")) as [s|] eqn:S.
        -- left. exists data, s. split; [reflexivity|]. split; [exact T|].
           split; [exact S|]. now apply Login_accepts.
        -- right; left. exists data. split; [reflexivity|]. split; [exact T|].
           split; [exact S|]. now apply Login_unprintable.
      * right; right. split.
        -- intros d E. injection E as <-. exact T.
        -- apply Login_refuses. intros _. exact T.
    + right; right. split; [discriminate|]. apply Login_refuses. discriminate.
  - right; right. split; [discriminate | reflexivity].
Qed.

Lemma guard_after_save s to w :
  App.PrivateRoute (App.navigate to (App.saveToken s w))
  = if Str.truthy s then App.Children else App.Navigate "/login".
Proof. unfold App.PrivateRoute. cbn. now destruct (Str.truthy s). Qed.

Lemma nav_after_save s to w :
  Pages.Layout_nav (App.navigate to (App.saveToken s w))
  = if Str.truthy s then ["Products"; "Logout"]%string else ["Login"; "Signup"]%string.
Proof. unfold Pages.Layout_nav. cbn. now destruct (Str.truthy s). Qed.

(** Property X15.  After a login that signs in, the route is
    "/products" and [getToken] returns the text of the body's token; the
    guard lets the user in, and the header shows "Products" and "Logout",
    exactly when that text is not empty.  The text of a truthy token is
    empty only for an array, as for the empty array and for the array that
    holds one [null]: after such a login the guard redirects to "/login". *)
Theorem Login_success_passes_guard w data s :
  App.json_truthy (App.get (Some data) "token") = true ->
  Pages.to_string (App.get (Some data) "token") = Some s ->
  let w' := Pages.Login_handleSubmit w (App.Response true (Some data)) in
  App.route w' = "/products"%string
  /\ App.getToken w' = Some s
  /\ (App.PrivateRoute w' = App.Children <-> s <> EmptyString)
  /\ (App.PrivateRoute w' = App.Children
      <-> Pages.Layout_nav w' = ["Products"; "Logout"]%string)
  /\ (s = EmptyString -> exists arr, App.get (Some data) "token" = Some (App.JPhotos arr))
  /\ (App.get (Some data) "token" = Some (App.JPhotos [])
      \/ App.get (Some data) "token" = Some (App.JPhotos [None]) ->
      App.PrivateRoute w' = App.Navigate "/login").
Proof.
  intros T S w'. subst w'. rewrite (Login_accepts w data s T S).
  rewrite !guard_after_save, nav_after_save.
  split; [reflexivity|]. split; [reflexivity|].
  assert (A : s = EmptyString ->
              exists arr, App.get (Some data) "token" = Some (App.JPhotos arr)).
  { intros ->. destruct (to_string_empty _ T S) as [E | E]; rewrite E; eauto. }
  assert (B : App.get (Some data) "token" = Some (App.JPhotos [])
              \/ App.get (Some data) "token" = Some (App.JPhotos [None]) ->
              s = EmptyString).
  { intros [E | E]; rewrite E in S; injection S as <-; reflexivity. }
  destruct s; cbn [Str.truthy].
  - split; [split; [discriminate | congruence]|].
    split; [split; discriminate|]. split; [exact A | reflexivity].
  - split; [split; [discriminate | reflexivity]|].
    split; [split; reflexivity|]. split; [exact A|].
    intros H. apply B in H. discriminate.
Qed.

Lemma Login_success_passes_guard_witness :
  (let w' := Pages.Login_handleSubmit More.signed_out More.granted in
   App.route w' = "/products"%string
   /\ App.getToken w' = Some "t0k3n"%string
   /\ App.PrivateRoute w' = App.Children)
  /\ (let w' := Pages.Login_handleSubmit More.signed_out More.granted_nothing in
      App.route w' = "/products"%string
      /\ App.getToken w' = Some EmptyString
      /\ App.PrivateRoute w' = App.Navigate "/login").
Proof.
  split.
  - destruct (Login_success_passes_guard More.signed_out
                (App.JObject [("token", App.JString "t0k3n")]%string) "t0k3n"
                eq_refl eq_refl) as (R & G & P & _).
    split; [exact R|]. split; [exact G|]. apply P. discriminate.
  - destruct (Login_success_passes_guard More.signed_out
                (App.JObject [("token", App.JPhotos [None])]%string) EmptyString
                eq_refl eq_refl) as (R & G & _ & _ & _ & N).
    split; [exact R|]. split; [exact G|]. apply N. right. reflexivity.
Defined.

(** Property X16.  [handleSubmit] of [Signup] never changes the token.
    On a response with success status and a JSON body (whatever the body
    holds, [null] included) it alerts the success message and goes to
    "/login"; in every other case the route stays and one alert is added:
    the text of the body's [error] when that is truthy and has one,
    "Signup failed" otherwise. *)
Theorem Signup_never_signs_in w r :
  let w' := Pages.Signup_handleSubmit w r in
  App.token w' = App.token w
  /\ ((exists data, r = App.Response true (Some data))
      /\ w' = App.navigate "/login" (App.alert "Signup successful. Please login." w)
      \/ (forall data, r <> App.Response true (Some data))
         /\ w' = App.alert (More.failure_text "Signup failed" r) w).
Proof.
  intros w'. subst w'.
  destruct r as [|ok [data|]].
  - split; [reflexivity|]. right. split; [discriminate | reflexivity].
  - destruct ok.
    + split; [reflexivity|]. left. split; [now exists data | reflexivity].
    + assert (E : Pages.Signup_handleSubmit w (App.Response false (Some data))
                  = App.alert (More.failure_text "Signup failed"
                                 (App.Response false (Some data))) w).
      { rewrite <- (alert_error_text "Signup failed" false data w). reflexivity. }
      rewrite E. split; [reflexivity|]. right. split; [discriminate | reflexivity].
  - split; [reflexivity|]. right. split; [discriminate | reflexivity].
Qed.

(** *** [Layout] *)

(** Property X17.  [logout] of [Layout] closes the session: no token is
    stored, the route is "/login", the guard redirects, the header offers
    "Login" and "Signup", a second [logout] changes nothing, and a [load]
    after it only clears [loading], whatever the response would be. *)
Theorem logout_closes_session w r :
  Spec.logged_out (Pages.logout w)
  /\ Pages.Layout_nav (Pages.logout w) = ["Login"; "Signup"]%string
  /\ Pages.logout (Pages.logout w) = Pages.logout w
  /\ App.load (Pages.logout w) r
     = App.setLoading false (Pages.logout w).
Proof.
  split; [|split; [|split]]; try reflexivity.
  unfold Spec.logged_out. repeat split.
Qed.

(** *** From the payload to the view *)

Lemma augment_plain p g z :
  More.plain_id p z -> App.augment p g = (Spec.derived z p, g).
Proof.
  intros (Hn & Hz & Hb). rewrite augment_unfold. cbv zeta. rewrite Hn.
  rewrite (lit_small z) by (rewrite pow53 in *; lia).
  rewrite truthy_int. destruct (Z.eqb_spec z 0); [lia|]. cbn [negb fst snd].
  rewrite category_at_int, price_of_int by lia. reflexivity.
Qed.

Lemma map_rng_plain arr zs g :
  Forall2 More.plain_id arr zs ->
  App.map_rng App.augment arr g = (More.derived_all arr zs, g).
Proof.
  induction 1 as [|p z arr zs Hp _ IH]; [reflexivity|].
  cbn [App.map_rng]. rewrite (augment_plain p g z Hp), IH. reflexivity.
Qed.

Lemma derived_all_priced arr zs : priced (More.derived_all arr zs).
Proof.
  unfold priced, More.derived_all. apply List.Forall_forall. intros x Hx.
  apply in_map_iff in Hx as ([p z] & <- & _). cbn [Spec.derived App.price fst snd].
  assert (B : 0 <= z * 97 mod 149500 < 149500) by (apply Z.mod_pos_bound; lia).
  rewrite lit_small by (rewrite pow53; lia). discriminate.
Qed.

Lemma keeps_unset f p :
  App.Filters.search f = EmptyString ->
  App.Filters.category f = EmptyString ->
  JS.truthy (Str.StringToNumber (App.Filters.minPrice f)) = false ->
  JS.truthy (Str.StringToNumber (App.Filters.maxPrice f)) = false ->
  App.price p <> JS.NaN -> Spec.keeps f p = true.
Proof.
  intros Hs Hc Hlo Hhi Hp. unfold Spec.keeps. rewrite Hs, Hc. simpl.
  now apply falsy_bounds.
Qed.

(** Property X13.  From the payload to the page: when every id of the
    payload converts to a positive integer [z] with [z * 97 < 2^53], [load]
    stores for each photo the item with the label at [z mod 5] and the
    price [(z * 97) mod 149500 + 500], draws no random number, and the
    pipeline with the initial (unset) filters shows all of them in the
    order of the payload. *)
Theorem loaded_catalog_is_shown w ok data arr zs :
  App.no_token (App.getToken w) = false ->
  App.unwrap data = App.JPhotos (List.map Some arr) ->
  Forall2 More.plain_id arr zs ->
  let w' := App.load w (App.Response ok (Some data)) in
  App.items w' = More.derived_all arr zs
  /\ App.filtered (App.items w') Ex.no_filter = App.items w'
  /\ List.length (App.filtered (App.items w') Ex.no_filter) = List.length arr
  /\ App.random w' = App.random w.
Proof.
  intros Ht Hu Hz w'. subst w'. rewrite (load_accepts w ok data arr Ht Hu).
  rewrite (map_rng_plain arr zs _ Hz). cbn [fst snd App.setItems App.setLoading App.items App.random].
  assert (F : App.filtered (More.derived_all arr zs) Ex.no_filter
              = More.derived_all arr zs).
  { rewrite filtered_eq.
    destruct (sort_stage_cases Ex.no_filter
                (List.filter (Spec.keeps Ex.no_filter) (More.derived_all arr zs)))
      as [[E _]|[[E _]|(_ & _ & ->)]]; [discriminate E|discriminate E|].
    apply filter_all. intros p Hp.
    apply keeps_unset; try reflexivity.
    pose proof (derived_all_priced arr zs) as P. unfold priced in P.
    rewrite List.Forall_forall in P. now apply P. }
  split; [reflexivity|]. split; [exact F|]. split; [|reflexivity].
  rewrite F. unfold More.derived_all. rewrite length_map, length_combine.
  rewrite <- (Forall2_length _ _ _ Hz). apply Nat.min_id.
Qed.

Lemma loaded_catalog_is_shown_witness :
  let w' := App.load Ex.signed_in More.catalog in
  App.items w' = More.derived_all More.three [1; 2; 3]
  /\ App.filtered (App.items w') Ex.no_filter = App.items w'
  /\ List.length (App.filtered (App.items w') Ex.no_filter) = List.length More.three
  /\ App.random w' = App.random Ex.signed_in.
Proof.
  apply (loaded_catalog_is_shown Ex.signed_in true _ More.three [1; 2; 3]).
  - reflexivity.
  - reflexivity.
  - apply List.Forall2_cons;
      [|apply List.Forall2_cons; [|apply List.Forall2_cons; [|apply List.Forall2_nil]]];
      (split; [vm_compute; reflexivity | split; vm_compute; reflexivity]).
Defined.

(** *** The effect of [ProductDetails] *)

Lemma find_first_match f id arr g :
  (forall p g0, App.photo (fst (f p g0)) = p) ->
  match List.find (Pages.has_id id) (fst (App.map_rng f arr g)) with
  | Some x =>
      exists i g',
        nth_error arr i = Some (App.photo x)
        /\ x = fst (f (App.photo x) g')
        /\ Pages.String_of (App.id (App.photo x)) = id
        /\ forall j q, (j < i)%nat -> nth_error arr j = Some q ->
                       Pages.String_of (App.id q) <> id
  | None => forall q, In q arr -> Pages.String_of (App.id q) <> id
  end.
Proof.
  intros H. revert g. induction arr as [|p r IH]; intros g.
  - simpl. tauto.
  - cbn [App.map_rng]. pose proof (H p g) as Hp.
    destruct (f p g) as [x g1] eqn:Ef.
    specialize (IH g1). destruct (App.map_rng f r g1) as [xs g2].
    cbn [fst List.find] in *. unfold Pages.has_id at 1. rewrite Hp.
    destruct (String.eqb_spec (Pages.String_of (App.id p)) id) as [E | N].
    + exists O, g. rewrite Hp, Ef. split; [reflexivity|]. split; [reflexivity|].
      split; [exact E|]. intros j q Hj. lia.
    + destruct (List.find (Pages.has_id id) xs) as [y|].
      * destruct IH as (i & g' & Hi & Ex & Ey & Hb). exists (S i), g'.
        split; [exact Hi|]. split; [exact Ex|]. split; [exact Ey|].
        intros [|j] q Hj Hq; simpl in Hq.
        -- injection Hq as <-. exact N.
        -- apply (Hb j q); [lia | exact Hq].
      * intros q [<- | Hq]; [exact N | now apply IH].
Qed.

Lemma details_accepts w id product ok data arr :
  App.no_token (App.getToken w) = false ->
  App.unwrap data = App.JPhotos (List.map Some arr) ->
  Pages.details_fetch w id product (App.Response ok (Some data))
  = (App.setRandom (snd (App.map_rng App.details_augment arr (App.random w))) w,
     List.find (Pages.has_id id)
       (fst (App.map_rng App.details_augment arr (App.random w)))).
Proof.
  intros Ht Hu. unfold Pages.details_fetch. rewrite Ht, Hu.
  now rewrite map_photos_some.
Qed.

Lemma details_null_element w id product ok data els :
  App.no_token (App.getToken w) = false ->
  App.unwrap data = App.JPhotos els -> In None els ->
  Pages.details_fetch w id product (App.Response ok (Some data))
  = (App.setRandom (snd (App.map_photos App.details_augment els (App.random w))) w,
     product).
Proof.
  intros Ht Hu Hn. unfold Pages.details_fetch. rewrite Ht, Hu.
  pose proof (map_photos_null App.details_augment els (App.random w) Hn) as E.
  destruct (App.map_photos App.details_augment els (App.random w)) as [l g].
  cbn [fst snd] in *. now rewrite E.
Qed.

Lemma details_without_history w id st product r :
  (forall p, st = Some p -> Pages.loose_eq (App.id (App.photo p)) id = false) ->
  Pages.details_effect w id st product r = Pages.details_fetch w id product r.
Proof.
  intros H. unfold Pages.details_effect. destruct st as [p|]; [|reflexivity].
  now rewrite (H p eq_refl).
Qed.

(** Property X18.  When the history state holds no product for the route
    id, a token is stored and the payload unwraps to an array of photos,
    the effect of [ProductDetails] does one of two things.  When every
    element is a photo record it sets the product to the first of the
    derived items whose id reads, as text, as the route id: the item that
    the arrow function gives for the first photo with that id, with its
    category and price; and it sets the product to [null] (replacing what
    was shown) when no photo has that id.  When an element is [null], the
    arrow function throws on it: the [catch] branch only logs, the product
    shown stays and the browser state changes in the random generator at
    most. *)
Theorem details_finds_first_match w id st product ok data els :
  (forall p, st = Some p -> Pages.loose_eq (App.id (App.photo p)) id = false) ->
  App.no_token (App.getToken w) = false ->
  App.unwrap data = App.JPhotos els ->
  let r := Pages.details_effect w id st product (App.Response ok (Some data)) in
  (forall arr, els = List.map Some arr ->
     snd r = List.find (Pages.has_id id)
               (fst (App.map_rng App.details_augment arr (App.random w)))
     /\ match snd r with
        | Some x =>
            exists i g',
              nth_error arr i = Some (App.photo x)
              /\ x = fst (App.details_augment (App.photo x) g')
              /\ Pages.String_of (App.id (App.photo x)) = id
              /\ forall j q, (j < i)%nat -> nth_error arr j = Some q ->
                             Pages.String_of (App.id q) <> id
        | None => forall q, In q arr -> Pages.String_of (App.id q) <> id
        end)
  /\ (In None els -> snd r = product /\ exists g, fst r = App.setRandom g w).
Proof.
  intros Hs Ht Hu r. subst r. rewrite (details_without_history _ _ _ _ _ Hs). split.
  - intros arr ->. rewrite (details_accepts w id product ok data arr Ht Hu). cbn [snd].
    split; [reflexivity|]. apply find_first_match, details_augment_photo.
  - intros Hn. rewrite (details_null_element w id product ok data els Ht Hu Hn).
    cbn [fst snd]. split; [reflexivity|]. eauto.
Qed.

Lemma details_finds_first_match_witness :
  (snd (Pages.details_effect Ex.signed_in "2" None None More.catalog)
   = List.find (Pages.has_id "2")
       (fst (App.map_rng App.details_augment More.three (App.random Ex.signed_in)))
   /\ match snd (Pages.details_effect Ex.signed_in "2" None None More.catalog) with
      | Some x =>
          exists i g',
            nth_error More.three i = Some (App.photo x)
            /\ x = fst (App.details_augment (App.photo x) g')
            /\ Pages.String_of (App.id (App.photo x)) = "2"%string
            /\ forall j q, (j < i)%nat -> nth_error More.three j = Some q ->
                           Pages.String_of (App.id q) <> "2"%string
      | None => forall q, In q More.three -> Pages.String_of (App.id q) <> "2"%string
      end)
  /\ (snd (Pages.details_effect Ex.signed_in "1" None (Some Ex.laptop) More.holed)
      = Some Ex.laptop
      /\ exists g, fst (Pages.details_effect Ex.signed_in "1" None (Some Ex.laptop)
                          More.holed)
                   = App.setRandom g Ex.signed_in).
Proof.
  split.
  - apply (proj1 (details_finds_first_match Ex.signed_in "2" None None true
                    More.catalog_body (List.map Some More.three)
                    ltac:(discriminate) eq_refl eq_refl) More.three).
    reflexivity.
  - apply (proj2 (details_finds_first_match Ex.signed_in "1" None (Some Ex.laptop) true
                    More.holed_body [Some (More.photo_with "1" "Red Phone"); None]
                    ltac:(discriminate) eq_refl eq_refl)).
    right; left; reflexivity.
Defined.

(** Property X19.  A failed request leaves [ProductDetails] as it is: on
    the responses on which [load] removes the token (network error, body
    that is not JSON, payload that is no array), the effect changes neither
    the browser state nor the product shown. *)
Theorem details_failure_is_silent w id st product r :
  (forall p, st = Some p -> Pages.loose_eq (App.id (App.photo p)) id = false) ->
  App.no_token (App.getToken w) = false -> Spec.rejects r = true ->
  Pages.details_effect w id st product r = (w, product)
  /\ App.token (App.load w r) = None.
Proof.
  intros Hs T Hr. rewrite (details_without_history _ _ _ _ _ Hs). split.
  - unfold Pages.details_fetch. rewrite T.
    destruct r as [|ok [data|]]; try reflexivity.
    simpl in Hr. destruct (App.unwrap data); try reflexivity. discriminate.
  - unfold App.load. rewrite (load_rejects w r T Hr). reflexivity.
Qed.

Lemma details_failure_is_silent_witness :
  Pages.details_effect Ex.signed_in "2" None (Some Ex.laptop) Ex.wrong_shape
  = (Ex.signed_in, Some Ex.laptop)
  /\ App.token (App.load Ex.signed_in Ex.wrong_shape) = None.
Proof.
  apply (details_failure_is_silent Ex.signed_in "2" None (Some Ex.laptop) Ex.wrong_shape).
  - discriminate.
  - reflexivity.
  - reflexivity.
Defined.

(** Property X20.  The effect of [ProductDetails] never changes the
    token, the alerts, the items or [loading], for any route id, history
    state and response; it changes the route only to "/login", and only
    when no token is stored. *)
Theorem details_never_touches_session w id st product r :
  let w' := fst (Pages.details_effect w id st product r) in
  App.token w' = App.token w /\ App.alerts w' = App.alerts w
  /\ App.items w' = App.items w /\ App.loading w' = App.loading w
  /\ (App.route w' = App.route w
      \/ (App.route w' = "/login"%string /\ App.no_token (App.getToken w) = true)).
Proof.
  intros w'. subst w'.
  assert (F : forall w0 : App.world,
    App.token w0 = App.token w0 /\ App.alerts w0 = App.alerts w0
    /\ App.items w0 = App.items w0 /\ App.loading w0 = App.loading w0
    /\ (App.route w0 = App.route w0
        \/ (App.route w0 = "/login"%string /\ App.no_token (App.getToken w) = true)))
    by (intros; tauto).
  assert (G : let w' := fst (Pages.details_fetch w id product r) in
    App.token w' = App.token w /\ App.alerts w' = App.alerts w
    /\ App.items w' = App.items w /\ App.loading w' = App.loading w
    /\ (App.route w' = App.route w
        \/ (App.route w' = "/login"%string /\ App.no_token (App.getToken w) = true))).
  { unfold Pages.details_fetch. destruct (App.no_token (App.getToken w)) eqn:T.
    - cbn. tauto.
    - destruct r as [|ok [data|]]; [apply F | | apply F].
      destruct (App.unwrap data); try apply F.
      destruct (App.map_photos App.details_augment arr (App.random w)) as [[l|] g];
        cbn; tauto. }
  unfold Pages.details_effect. destruct st as [p|]; [|exact G].
  destruct (Pages.loose_eq (App.id (App.photo p)) id); [apply F | exact G].
Qed.

Lemma details_augment_truthy p g :
  JS.truthy (App.Number (App.id p)) = true ->
  App.details_augment p g = App.augment p g.
Proof.
  intros T. rewrite augment_unfold, details_augment_unfold. cbv zeta.
  now rewrite T.
Qed.

Lemma map_rng_truthy arr g :
  Forall (fun p => JS.truthy (App.Number (App.id p)) = true) arr ->
  App.map_rng App.details_augment arr g = App.map_rng App.augment arr g.
Proof.
  intros H. revert g. induction H as [|p r Hp _ IH]; intros g; [reflexivity|].
  cbn [App.map_rng]. rewrite (details_augment_truthy p g Hp).
  destruct (App.augment p g) as [x g1]. now rewrite IH.
Qed.

(** Property X21.  The detail page shows the item of the list: for a
    payload in which every id converts to a number other than 0 and [NaN],
    the product the effect of [ProductDetails] finds for a route id is the
    first item with that id among the items [load] stores for the same
    payload, with the same category and price. *)
Theorem details_shows_the_listed_item w id st product ok ok' data arr :
  (forall p, st = Some p -> Pages.loose_eq (App.id (App.photo p)) id = false) ->
  App.no_token (App.getToken w) = false ->
  App.unwrap data = App.JPhotos (List.map Some arr) ->
  Forall (fun p => JS.truthy (App.Number (App.id p)) = true) arr ->
  snd (Pages.details_effect w id st product (App.Response ok (Some data)))
  = List.find (Pages.has_id id) (App.items (App.load w (App.Response ok' (Some data)))).
Proof.
  intros Hs Ht Hu Hf. rewrite (details_without_history _ _ _ _ _ Hs).
  rewrite (details_accepts w id product ok data arr Ht Hu).
  rewrite (load_accepts w ok' data arr Ht Hu).
  rewrite (map_rng_truthy arr _ Hf). reflexivity.
Qed.

Lemma details_shows_the_listed_item_witness :
  snd (Pages.details_effect Ex.signed_in "3" None None More.catalog)
  = List.find (Pages.has_id "3") (App.items (App.load Ex.signed_in More.catalog)).
Proof.
  apply (details_shows_the_listed_item Ex.signed_in "3" None None true true _ More.three).
  - discriminate.
  - reflexivity.
  - reflexivity.
  - apply List.Forall_cons;
      [|apply List.Forall_cons; [|apply List.Forall_cons; [|apply List.Forall_nil]]];
      vm_compute; reflexivity.
Defined.

Lemma minMax_derived_in_range arr zs :
  Forall2 More.plain_id arr zs -> arr <> [] ->
  Spec.in_range (Pages.min (Pages.minMax (More.derived_all arr zs)))
  /\ Spec.in_range (Pages.max (Pages.minMax (More.derived_all arr zs))).
Proof.
  intros Hz Hne.
  assert (R : forall x, In x (More.derived_all arr zs) -> Spec.in_range (App.price x)).
  { intros x Hx. unfold More.derived_all in Hx.
    apply in_map_iff in Hx as ([p z] & <- & Hi). cbn [Spec.derived App.price fst snd].
    apply lit_in_range.
    assert (B : 0 <= z * 97 mod 149500 < 149500) by (apply Z.mod_pos_bound; lia).
    lia. }
  assert (N : More.derived_all arr zs <> []).
  { destruct Hz as [|p z arr zs]; [congruence | discriminate]. }
  assert (F : Forall (fun x => x <> JS.NaN)
                (List.map App.price (More.derived_all arr zs))).
  { apply List.Forall_forall. intros x Hx. apply in_map_iff in Hx as (p & <- & Hp).
    intros E. apply R in Hp. rewrite E in Hp. exact (NaN_not_in_range Hp). }
  assert (P : forall v, In v (List.map App.price (More.derived_all arr zs)) ->
                        Spec.in_range v).
  { intros v Hv. apply in_map_iff in Hv as (p & <- & Hp). now apply R. }
  destruct (Math_min_spec _ F) as (_ & _ & Lo).
  destruct (Math_max_spec _ F) as (_ & _ & Hi).
  destruct (More.derived_all arr zs) as [|q l]; [congruence|].
  rewrite minMax_cons. cbn [Pages.min Pages.max].
  split; apply P; [apply Lo | apply Hi]; discriminate.
Qed.

(** Property X22.  For a non-empty payload in which every id converts to
    a positive integer [z] with [z * 97 < 2^53], both values of [minMax]
    over the items that [load] stores lie in [[500, 150000)]. *)
Theorem minMax_of_loaded_catalog w ok data arr zs :
  App.no_token (App.getToken w) = false ->
  App.unwrap data = App.JPhotos (List.map Some arr) ->
  Forall2 More.plain_id arr zs -> arr <> [] ->
  let w' := App.load w (App.Response ok (Some data)) in
  Spec.in_range (Pages.min (Pages.minMax (App.items w')))
  /\ Spec.in_range (Pages.max (Pages.minMax (App.items w'))).
Proof.
  intros Ht Hu Hz Hne w'. subst w'. rewrite (load_accepts w ok data arr Ht Hu).
  rewrite (map_rng_plain arr zs _ Hz).
  cbn [fst snd App.setItems App.setLoading App.items].
  exact (minMax_derived_in_range arr zs Hz Hne).
Qed.

Lemma minMax_of_loaded_catalog_witness :
  let w' := App.load Ex.signed_in More.catalog in
  Spec.in_range (Pages.min (Pages.minMax (App.items w')))
  /\ Spec.in_range (Pages.max (Pages.minMax (App.items w'))).
Proof.
  apply (minMax_of_loaded_catalog Ex.signed_in true _ More.three [1; 2; 3]).
  - reflexivity.
  - reflexivity.
  - apply List.Forall2_cons;
      [|apply List.Forall2_cons; [|apply List.Forall2_cons; [|apply List.Forall2_nil]]];
      (split; [vm_compute; reflexivity | split; vm_compute; reflexivity]).
  - discriminate.
Defined.
